(** * auto-trade-simulator: indicator engine, position state machine,
      P&L calculator and ingestion loop

    Shallow embedding of
      - [src/components/TradeSimWeb.tsx]  (module [Web])
      - [src/unnamed/part_000]            (module [Part000])

    Number model.  A JavaScript [number] is modelled by [num]: an exact
    rational, or one of the three non-finite IEEE values.  Arithmetic on
    finite values is exact (no rounding, no overflow, no underflow) and zero
    carries no sign; division by zero produces [NaN] or an infinity as in
    IEEE 754, so truthiness ([x && ...]), comparisons and the propagation
    of NaN and of the infinities follow the source.  What is proved on
    [num] in modules [Web] and [Part000] is therefore a statement about
    the control flow and about exact arithmetic.  Where rounding and
    overflow decide the outcome the source is embedded a second time:
    module [Rounded] is [calculate_rsi] with every arithmetic result passed
    through a rounding, of which exact arithmetic is one instance, and
    module [Binary64] evaluates the P&L formula and [calculate_rsi] on
    binary64 doubles.

    Messages.  [message] is a well-formed message; module [Parsed] is the
    two handlers on every value [JSON.parse] can return.

    Reconnection.  [Web.ws_step] is the hook during one run of its effect;
    [Web.component_step] is the hook as the component calls it, where every
    render starts a new run. *)

From Stdlib Require Import String.
From Stdlib Require Import QArith Lqa ZArith Lia Bool Arith PeanoNat List.
From Stdlib Require PrimFloat.
Import ListNotations.

(* ================================================================== *)
(** ** JavaScript numbers *)

Inductive num : Type :=
| Fin (q : Q)
| PInf
| NInf
| NaN.

Declare Scope num_scope.
Delimit Scope num_scope with num.
Bind Scope num_scope with num.

(** Sign of a number as a [comparison] with zero; [Eq] also stands for
    "no sign" (NaN). *)
Definition nsign (x : num) : comparison :=
  match x with
  | Fin q => (q ?= 0)%Q
  | PInf => Gt
  | NInf => Lt
  | NaN => Eq
  end.

Definition sign_mul (a b : comparison) : comparison :=
  match a, b with
  | Eq, _ | _, Eq => Eq
  | Gt, Gt | Lt, Lt => Gt
  | _, _ => Lt
  end.

(** The infinity of a given sign; a zero sign gives NaN (0 * Infinity, 0 / 0). *)
Definition inf_of_sign (c : comparison) : num :=
  match c with
  | Gt => PInf
  | Lt => NInf
  | Eq => NaN
  end.

Definition nneg (x : num) : num :=
  match x with
  | Fin q => Fin (- q)
  | PInf => NInf
  | NInf => PInf
  | NaN => NaN
  end.

Definition nadd (x y : num) : num :=
  match x, y with
  | NaN, _ | _, NaN => NaN
  | Fin a, Fin b => Fin (a + b)
  | PInf, NInf | NInf, PInf => NaN
  | PInf, _ | _, PInf => PInf
  | NInf, _ | _, NInf => NInf
  end.

Definition nsub (x y : num) : num := nadd x (nneg y).

Definition nmul (x y : num) : num :=
  match x, y with
  | NaN, _ | _, NaN => NaN
  | Fin a, Fin b => Fin (a * b)
  | _, _ => inf_of_sign (sign_mul (nsign x) (nsign y))
  end.

Definition ndiv (x y : num) : num :=
  match x, y with
  | NaN, _ | _, NaN => NaN
  | Fin a, Fin b =>
      if Qeq_bool b 0 then inf_of_sign (a ?= 0)%Q else Fin (a / b)
  | Fin _, _ => Fin 0
  | _, Fin b =>
      inf_of_sign (sign_mul (nsign x) (if Qeq_bool b 0 then Gt else (b ?= 0)%Q))
  | _, _ => NaN
  end.

(** [x < y]; every comparison with NaN is false. *)
Definition nlt (x y : num) : bool :=
  match x, y with
  | NaN, _ | _, NaN => false
  | Fin a, Fin b => negb (Qle_bool b a)
  | NInf, NInf => false
  | NInf, _ => true
  | _, PInf => match x with PInf => false | _ => true end
  | _, _ => false
  end.

(** [x === y] on numbers. *)
Definition neqb (x y : num) : bool :=
  match x, y with
  | Fin a, Fin b => Qeq_bool a b
  | PInf, PInf | NInf, NInf => true
  | _, _ => false
  end.

Definition ngt (x y : num) : bool := nlt y x.
Definition nle (x y : num) : bool := nlt x y || neqb x y.
Definition nge (x y : num) : bool := nle y x.

(** ToBoolean on a number: false for 0 and NaN. *)
Definition truthy (x : num) : bool :=
  match x with
  | Fin q => negb (Qeq_bool q 0)
  | NaN => false
  | _ => true
  end.

(** ToBoolean on [number | null | undefined]. *)
Definition truthy_opt (x : option num) : bool :=
  match x with
  | Some n => truthy n
  | None => false
  end.

Definition of_nat (n : nat) : num := Fin (inject_Z (Z.of_nat n)).

Notation "x + y" := (nadd x y) : num_scope.
Notation "x - y" := (nsub x y) : num_scope.
Notation "x * y" := (nmul x y) : num_scope.
Notation "x / y" := (ndiv x y) : num_scope.
Notation "- x" := (nneg x) : num_scope.
Notation "x <? y" := (nlt x y) : num_scope.
Notation "x >? y" := (ngt x y) : num_scope.
Notation "x <=? y" := (nle x y) : num_scope.
Notation "x >=? y" := (nge x y) : num_scope.
Notation "x === y" := (neqb x y) (at level 70, no associativity) : num_scope.

(** Two numbers denote the same value. *)
Definition num_eq (x y : num) : Prop :=
  match x, y with
  | Fin a, Fin b => (a == b)%Q
  | PInf, PInf | NInf, NInf | NaN, NaN => True
  | _, _ => False
  end.

Definition finite (x : num) : Prop :=
  match x with Fin _ => True | _ => False end.

(** A finite number that is not negative. *)
Definition nonneg (x : num) : Prop :=
  match x with Fin q => (0 <= q)%Q | _ => False end.

(* ================================================================== *)
(** ** JavaScript array operations used by the source *)

Section Arrays.
Context {A B : Type}.

(** [arr.slice(-n)] for a literal [n >= 0]: the last [n] elements; [-0] is
    [0], so [slice(-0)] is the whole array. *)
Definition slice_last (n : nat) (arr : list A) : list A :=
  if (n =? 0)%nat then arr else skipn (length arr - n) arr.

(** [arr.slice(0, n)]. *)
Definition slice_to (n : nat) (arr : list A) : list A := firstn n arr.

(** [arr.slice(n)]. *)
Definition slice_from (n : nat) (arr : list A) : list A := skipn n arr.

(** [arr.at(-1)]: [undefined] (here [None]) on the empty array. *)
Definition at_last (arr : list A) : option A :=
  match rev arr with
  | [] => None
  | x :: _ => Some x
  end.

(** [arr.map((v, i) => f i v)]. *)
Fixpoint mapi_from (f : nat -> A -> B) (i : nat) (arr : list A) : list B :=
  match arr with
  | [] => []
  | v :: rest => f i v :: mapi_from f (S i) rest
  end.

Definition mapi (f : nat -> A -> B) (arr : list A) : list B :=
  mapi_from f 0 arr.

(** [arr.reduce((acc, cur, i) => f acc cur i, init)]. *)
Fixpoint reducei_from (f : B -> A -> nat -> B) (i : nat) (arr : list A)
         (acc : B) : B :=
  match arr with
  | [] => acc
  | cur :: rest => reducei_from f (S i) rest (f acc cur i)
  end.

Definition reducei (f : B -> A -> nat -> B) (arr : list A) (init : B) : B :=
  reducei_from f 0 arr init.
End Arrays.

(** [arr[i]] on a number array read in arithmetic: out of range is
    [undefined], which arithmetic turns into NaN. *)
Definition get (arr : list num) (i : nat) : num := nth i arr NaN.

(** [arr.reduce((a, b) => a + b, 0)]. *)
Definition sum (arr : list num) : num := fold_left nadd arr (Fin 0).

(* ================================================================== *)
(** ** Strategy parameters (identical in both source files) *)

Definition RSI_PERIOD : nat := 14.
Definition SMA_SHORT_PERIOD : nat := 5.
Definition SMA_LONG_PERIOD : nat := 20.
Definition MACD_FAST : nat := 12.
Definition MACD_SLOW : nat := 26.
Definition MACD_SIGNAL : nat := 9.
Definition RSI_BUY_THRESHOLD : num := Fin 30.
Definition VWAP_CONDITION : bool := true.
Definition TAKE_PROFIT_PCT : num := Fin 0.7.
Definition STOP_LOSS_PCT : num := Fin (-0.5).
Definition CAPITAL_GAIN_TAX_RATE : num := Fin 0.22.
Definition BROKER_COMMISSION_RATE : num := Fin 0.0023.
Definition MAX_HOLD_TIME : nat := 90.

(* ================================================================== *)
(** ** Event log and simulation state (same shape in both files) *)

Inductive log_type : Type := BUY | SELL.

(** [{ time, type, price, reason }] for a BUY and
    [{ time, type, price, profit }] for a SELL; the field the object literal
    does not set is [None]. *)
Record log : Type := mkLog {
  time : nat;
  type : log_type;
  price : num;
  reason : option string;
  profit : option num
}.

(** The local variables of [simulate]. *)
Record sim_state : Type := mkSim {
  holding : bool;
  entry : num;
  entryIdx : nat;
  newLogs : list log
}.

Definition sim_init : sim_state :=
  {| holding := false; entry := Fin 0; entryIdx := 0; newLogs := [] |}.

(** Assignments to the locals, and [newLogs.push(e)]. *)
Definition set_holding (b : bool) (st : sim_state) : sim_state :=
  {| holding := b; entry := entry st; entryIdx := entryIdx st;
     newLogs := newLogs st |}.

Definition set_entry (x : num) (st : sim_state) : sim_state :=
  {| holding := holding st; entry := x; entryIdx := entryIdx st;
     newLogs := newLogs st |}.

Definition set_entryIdx (i : nat) (st : sim_state) : sim_state :=
  {| holding := holding st; entry := entry st; entryIdx := i;
     newLogs := newLogs st |}.

Definition push_log (e : log) (st : sim_state) : sim_state :=
  {| holding := holding st; entry := entry st; entryIdx := entryIdx st;
     newLogs := newLogs st ++ [e] |}.

(** [reasons.join(", ")]. *)
Definition join (reasons : list string) : string := String.concat ", " reasons.

(** The React state holding the two buffers. *)
Record buffers : Type := mkBuf {
  prices : list num;
  volumes : list num
}.

(** A well-formed inbound message after [JSON.parse]: a trade message with
    its [data] array, or any other message.  A trade entry has a finite
    price [p] and a finite volume [v] that the sender may omit.  The
    handlers on messages of any other shape are in module [Parsed]. *)
Record trade : Type := mkTrade {
  p : Q;
  v : option Q
}.

Inductive message : Type :=
| Trade (data : list trade)
| Other.

(** [volume || 1]. *)
Definition or_one (volume : option Q) : num :=
  match volume with
  | Some q => if truthy (Fin q) then Fin q else Fin 1
  | None => Fin 1
  end.

(** [x || 0] on [number | undefined]. *)
Definition or_zero (x : option num) : num :=
  match x with
  | Some n => if truthy n then n else Fin 0
  | None => Fin 0
  end.

(** [Math.max(a, b)]: NaN when either argument is NaN. *)
Definition nmax (a b : num) : num :=
  match a, b with
  | NaN, _ | _, NaN => NaN
  | _, _ => if (a <? b)%num then b else a
  end.

(** [d.type === "SELL"]. *)
Definition is_sell (d : log) : bool :=
  match type d with SELL => true | BUY => false end.

(* ================================================================== *)
(** ** src/components/TradeSimWeb.tsx *)

Module Web.
Local Open Scope num_scope.

(** *** Indicator functions *)

(** The two averages computed by [calculate_rsi] before it branches:
    [(avgUp, avgDown)]. *)
Definition rsi_averages (data : list num) : num * num :=
  let deltas :=
    mapi (fun i v => if (i =? 0)%nat then Fin 0 else v - get data (i - 1)) data in
  let up := map (fun d => if d >? Fin 0 then d else Fin 0) deltas in
  let down := map (fun d => if d <? Fin 0 then - d else Fin 0) deltas in
  let avgUp := sum (slice_last RSI_PERIOD up) / of_nat RSI_PERIOD in
  let avgDown := sum (slice_last RSI_PERIOD down) / of_nat RSI_PERIOD in
  (avgUp, avgDown).

Definition calculate_rsi (data : list num) : option num :=
  if (length data <? RSI_PERIOD + 1)%nat then None
  else
    let '(avgUp, avgDown) := rsi_averages data in
    if avgDown === Fin 0 then Some (Fin 100)
    else
      let rs := avgUp / avgDown in
      Some (Fin 100 - Fin 100 / (Fin 1 + rs)).

(** [period] is a natural number: the callers pass 5 and 20. *)
Definition calculate_sma (data : list num) (period : nat) : option num :=
  if (length data <? period)%nat then None
  else Some (sum (slice_last period data) / of_nat period).

(** The local closure [ema] of [calculate_macd]. *)
Definition ema (arr : list num) (n : nat) : list num :=
  let k := Fin 2 / (of_nat n + Fin 1) in
  reducei
    (fun acc cur i =>
       if (i =? 0)%nat then acc ++ [cur]
       else acc ++ [cur * k + get acc (i - 1) * (Fin 1 - k)])
    arr [].

(** Returns the pair [[macd.at(-1), signal.at(-1)]], or [[null, null]]. *)
Definition calculate_macd (data : list num) : option num * option num :=
  if (length data <? MACD_SLOW)%nat then (None, None)
  else
    let fast := ema data MACD_FAST in
    let slow := ema data MACD_SLOW in
    let macd := mapi (fun i v => v - get slow i) fast in
    let signal := ema (slice_from (MACD_SLOW - 1) macd) MACD_SIGNAL in
    (at_last macd, at_last signal).

(** The [for] loop of [calculate_vwap] over [i = 0 .. p.length - 1],
    carrying [(cumPV, cumV)]. *)
Definition vwap_loop (p v : list num) : num * num :=
  fold_left
    (fun '(cumPV, cumV) i => (cumPV + get p i * get v i, cumV + get v i))
    (seq 0 (length p)) (Fin 0, Fin 0).

Definition calculate_vwap (p v : list num) : option num :=
  if (length p <? 2)%nat || negb (length v =? length p)%nat then None
  else
    let '(cumPV, cumV) := vwap_loop p v in
    Some (cumPV / cumV).

(** *** P&L *)

Definition calculate_net_profit (entry exit : num) : num :=
  let gross := (exit - entry) / entry in
  let gross := gross - BROKER_COMMISSION_RATE * Fin 2 in
  let gross := if gross >? Fin 0 then gross * (Fin 1 - CAPITAL_GAIN_TAX_RATE)
               else gross in
  gross * Fin 100.

(** *** Simulation pass *)

(** The [reasons] array built at index [i]. *)
Definition reasons_at (prices volumes : list num) (i : nat) : list string :=
  let p := get prices i in
  let rsi := calculate_rsi (slice_to (i + 1) prices) in
  let sma5 := calculate_sma (slice_to (i + 1) prices) SMA_SHORT_PERIOD in
  let sma20 := calculate_sma (slice_to (i + 1) prices) SMA_LONG_PERIOD in
  let vwap := calculate_vwap (slice_to (i + 1) prices) (slice_to (i + 1) volumes) in
  let '(macd, signal) := calculate_macd (slice_to (i + 1) prices) in
  let reasons := [] in
  let reasons :=
    match rsi with
    | Some r => if truthy r && (r <? RSI_BUY_THRESHOLD) then reasons ++ ["RSI<30"%string]
                else reasons
    | None => reasons
    end in
  let reasons :=
    match vwap with
    | Some w => if VWAP_CONDITION && truthy w && (p >? w)
                then reasons ++ ["VWAP 돌파"%string] else reasons
    | None => reasons
    end in
  let reasons :=
    match sma5, sma20 with
    | Some a, Some b => if truthy a && truthy b && (a >? b)
                        then reasons ++ ["골든크로스"%string] else reasons
    | _, _ => reasons
    end in
  let reasons :=
    match macd, signal with
    | Some m, Some s => if truthy m && truthy s && (m >? s)
                        then reasons ++ ["MACD 상향 돌파"%string] else reasons
    | _, _ => reasons
    end in
  reasons.

(** One iteration of the [for] loop of [simulate].  The local
    [v = volumes[i] || 1] is never read and is left out; [i - entryIdx] is
    only evaluated while holding, when [entryIdx <= i]. *)
Definition sim_step (prices volumes : list num) (st : sim_state) (i : nat)
  : sim_state :=
  let p := get prices i in
  let reasons := reasons_at prices volumes i in
  if negb (holding st) && (length reasons =? 4)%nat then
    let st := set_holding true st in
    let st := set_entry p st in
    let st := set_entryIdx i st in
    push_log {| time := i; type := BUY; price := p;
                reason := Some (join reasons); profit := None |} st
  else if holding st then
    let net := calculate_net_profit (entry st) p in
    if (net >=? TAKE_PROFIT_PCT) || (net <=? STOP_LOSS_PCT)
       || (MAX_HOLD_TIME <=? i - entryIdx st)%nat
    then
      let st := set_holding false st in
      push_log {| time := i; type := SELL; price := p;
                  reason := None; profit := Some net |} st
    else st
  else st.

(** The state after the loop has run over indices [0 .. n - 1]. *)
Definition sim_run (prices volumes : list num) (n : nat) : sim_state :=
  fold_left (sim_step prices volumes) (seq 0 n) sim_init.

(** [simulate]: the log handed to [setLogs]. *)
Definition simulate (prices volumes : list num) : list log :=
  newLogs (sim_run prices volumes (length prices)).

(** [cumulative]: the running sum of the SELL profits, for the chart.
    [acc[i - 1]] is [undefined] at [i = 0]. *)
Definition cumulative (logs : list log) : list num :=
  reducei
    (fun acc cur i =>
       acc ++ [or_zero (if (i =? 0)%nat then None else nth_error acc (i - 1))
               + or_zero (profit cur)])
    (filter is_sell logs) [].

(** The effect that arms the periodic pass: [None] when it returns early,
    otherwise the delay (ms) handed to [setInterval]. *)
Definition auto_interval (apiKey : string) (prices : list num)
           (intervalSec : num) : option num :=
  if (apiKey =? "")%string || (length prices <? 20)%nat || (intervalSec <? Fin 1)
  then None
  else Some (nmax (Fin 1000) (intervalSec * Fin 1000)).

(** *** Ingestion: the [onTrade] callback and [ws.onmessage] *)

Definition onTrade (st : buffers) (price volume : num) : buffers :=
  {| prices := slice_last 99 (prices st) ++ [price];
     volumes := slice_last 99 (volumes st) ++ [volume] |}.

Definition onmessage (st : buffers) (msg : message) : buffers :=
  match msg with
  | Trade (t :: _) => onTrade st (Fin (p t)) (or_one (v t))
  | _ => st
  end.

(** *** Reconnection: the state of [useFinnhubWS]

    [ws_step] follows the handlers during one run of the effect, that is,
    for as long as the component does not render again.  The runs that the
    renders of [TradeSimWeb] start are modelled by [component_step]
    below. *)

Inductive status : Type :=
| Waiting      (* the initial label *)
| Connecting   (* set by [connect] *)
| Connected    (* set by [onopen] *)
| Errored      (* set by [onerror] *)
| Closed.      (* set by [onclose] *)

(** [timeoutRef] is modelled by the delay (ms) of the timer that is still
    pending, if any; [scheduled] records every delay passed to
    [setTimeout], oldest first. *)
Record conn : Type := mkConn {
  mounted : bool;
  st_status : status;
  retryCount : nat;
  timeoutRef : option Z;
  scheduled : list Z
}.

Inductive ws_event : Type :=
| EvOpen | EvError | EvClose | EvTimer | EvCleanup.

(** [Math.min(30000, 1000 * 2 ** retryCount.current)]. *)
Definition reconnect_delay (retry : nat) : Z :=
  Z.min 30000 (1000 * 2 ^ Z.of_nat retry).

Definition connect (c : conn) : conn :=
  if negb (mounted c) then c
  else {| mounted := mounted c; st_status := Connecting;
          retryCount := retryCount c; timeoutRef := timeoutRef c;
          scheduled := scheduled c |}.

Definition ws_step (c : conn) (e : ws_event) : conn :=
  match e with
  | EvOpen =>
      {| mounted := mounted c; st_status := Connected; retryCount := 0;
         timeoutRef := timeoutRef c; scheduled := scheduled c |}
  | EvError =>
      {| mounted := mounted c; st_status := Errored;
         retryCount := retryCount c; timeoutRef := timeoutRef c;
         scheduled := scheduled c |}
  | EvClose =>
      if negb (mounted c) then
        {| mounted := mounted c; st_status := Closed;
           retryCount := retryCount c; timeoutRef := timeoutRef c;
           scheduled := scheduled c |}
      else
        let delay := reconnect_delay (retryCount c) in
        {| mounted := mounted c; st_status := Closed;
           retryCount := retryCount c; timeoutRef := Some delay;
           scheduled := scheduled c ++ [delay] |}
  | EvTimer =>
      match timeoutRef c with
      | None => c
      | Some _ =>
          connect {| mounted := mounted c; st_status := st_status c;
                     retryCount := retryCount c + 1; timeoutRef := None;
                     scheduled := scheduled c |}
      end
  | EvCleanup =>
      {| mounted := false; st_status := st_status c;
         retryCount := retryCount c; timeoutRef := None;
         scheduled := scheduled c |}
  end.

(** The hook right after its effect has called [connect()]. *)
Definition conn_init : conn :=
  {| mounted := true; st_status := Connecting; retryCount := 0;
     timeoutRef := None; scheduled := [] |}.

Definition ws_run (c : conn) (es : list ws_event) : conn :=
  fold_left ws_step es c.

(** *** The hook as [TradeSimWeb] calls it

    [ws_step] describes one run of the effect.  In the program the effect
    does not run once: [TradeSimWeb] passes an arrow function written inline
    as [onTrade] (lines 163-166: a new function object on every render) and
    the effect lists [onTrade] among its dependencies (line 95), so after
    every render of the component React runs the cleanup of the previous
    run and then the effect body again.  A render is requested by every state update that changes
    the state: [setStatus] with a label other than the current one, and
    [setPrices]/[setVolumes] on every trade.

    Every run of the effect body has its own variable [mounted] and creates
    its own socket, whose handlers read that variable.  The runs are
    numbered: the handlers of the socket of run [g] see [mounted = true]
    exactly while [g] is the current run.  The two refs and the status
    label are shared by all runs.  The API key is taken to be set. *)

Definition status_eqb (a b : status) : bool :=
  match a, b with
  | Waiting, Waiting | Connecting, Connecting | Connected, Connected
  | Errored, Errored | Closed, Closed => true
  | _, _ => false
  end.

Definition set_mounted (b : bool) (c : conn) : conn :=
  {| mounted := b; st_status := st_status c; retryCount := retryCount c;
     timeoutRef := timeoutRef c; scheduled := scheduled c |}.

(** [hook]: the status label, the refs, and [mounted] of the current run.
    [render_pending]: a state update has been made and the component has
    not been rendered since.  [timer_live]: the pending timer can still
    expire.  A timer of the hook expires after 1000 ms or more, while React
    renders a pending update within the same turn of the event loop or the
    next and that render's cleanup clears the timer; so a timer set while a
    render is pending never expires.  [sockets]: the WebSocket objects
    created so far. *)
Record component : Type := mkComponent {
  hook : conn;
  effect : nat;
  render_pending : bool;
  timer_live : bool;
  sockets : nat
}.

Inductive component_event : Type :=
| SocketOpen (g : nat)     (* [onopen] of the socket of run [g] *)
| SocketError (g : nat)    (* [onerror] *)
| SocketClose (g : nat)    (* [onclose] *)
| SocketTrade (g : nat)    (* [onmessage] with a trade: [onTrade] is called *)
| TimerExpires             (* the callback passed to [setTimeout] *)
| Render.                  (* a render, then cleanup and effect body *)

(** A handler of the socket of run [g]. *)
Definition socket_handler (h : component) (g : nat) (e : ws_event) : component :=
  let c := ws_step (set_mounted (g =? effect h)%nat (hook h)) e in
  let pending :=
    render_pending h || negb (status_eqb (st_status (hook h)) (st_status c)) in
  {| hook := set_mounted (mounted (hook h)) c;
     effect := effect h;
     render_pending := pending;
     timer_live :=
       match e with
       | EvClose => if (g =? effect h)%nat then negb pending else timer_live h
       | _ => timer_live h
       end;
     sockets := sockets h |}.

(** A pending timer was set by the current run (a render clears it), so its
    callback calls the [connect] of the current run. *)
Definition component_step (h : component) (e : component_event) : component :=
  match e with
  | SocketOpen g => socket_handler h g EvOpen
  | SocketError g => socket_handler h g EvError
  | SocketClose g => socket_handler h g EvClose
  | SocketTrade g =>
      {| hook := hook h; effect := effect h; render_pending := true;
         timer_live := timer_live h; sockets := sockets h |}
  | TimerExpires =>
      match timeoutRef (hook h) with
      | Some _ =>
          if timer_live h then
            let c := ws_step (hook h) EvTimer in
            {| hook := c; effect := effect h;
               render_pending :=
                 render_pending h
                 || negb (status_eqb (st_status (hook h)) (st_status c));
               timer_live := false;
               sockets := if mounted (hook h) then S (sockets h) else sockets h |}
          else h
      | None => h
      end
  | Render =>
      let c := connect (set_mounted true (ws_step (hook h) EvCleanup)) in
      {| hook := c; effect := S (effect h);
         render_pending := negb (status_eqb (st_status (hook h)) (st_status c));
         timer_live := false;
         sockets := S (sockets h) |}
  end.

(** The component right after the effect has run for the first time with an
    API key: [connect()] has changed the label, so a render is pending. *)
Definition component_init : component :=
  {| hook := conn_init; effect := 0; render_pending := true;
     timer_live := false; sockets := 1 |}.

Definition component_run (h : component) (es : list component_event) : component :=
  fold_left component_step es h.
End Web.

(* ================================================================== *)
(** ** src/unnamed/part_000 *)

Module Part000.
Local Open Scope num_scope.

(** *** Indicator functions (closures of the component) *)

Definition rsi_averages (data : list num) : num * num :=
  let deltas :=
    mapi (fun i v => if (i =? 0)%nat then Fin 0 else v - get data (i - 1)) data in
  let up := map (fun d => if d >? Fin 0 then d else Fin 0) deltas in
  let down := map (fun d => if d <? Fin 0 then - d else Fin 0) deltas in
  let avgUp := sum (slice_last RSI_PERIOD up) / of_nat RSI_PERIOD in
  let avgDown := sum (slice_last RSI_PERIOD down) / of_nat RSI_PERIOD in
  (avgUp, avgDown).

Definition calculate_rsi (data : list num) : option num :=
  if (length data <? RSI_PERIOD + 1)%nat then None
  else
    let '(avgUp, avgDown) := rsi_averages data in
    if avgDown === Fin 0 then Some (Fin 100)
    else
      let rs := avgUp / avgDown in
      Some (Fin 100 - Fin 100 / (Fin 1 + rs)).

Definition calculate_sma (data : list num) (period : nat) : option num :=
  if (length data <? period)%nat then None
  else Some (sum (slice_last period data) / of_nat period).

Definition ema (arr : list num) (n : nat) : list num :=
  let k := Fin 2 / (of_nat n + Fin 1) in
  reducei
    (fun acc cur i =>
       if (i =? 0)%nat then acc ++ [cur]
       else acc ++ [cur * k + get acc (i - 1) * (Fin 1 - k)])
    arr [].

Definition calculate_macd (data : list num) : option num * option num :=
  if (length data <? MACD_SLOW)%nat then (None, None)
  else
    let fast := ema data MACD_FAST in
    let slow := ema data MACD_SLOW in
    let macd := mapi (fun i v => v - get slow i) fast in
    let signal := ema (slice_from (MACD_SLOW - 1) macd) MACD_SIGNAL in
    (at_last macd, at_last signal).

Definition vwap_loop (p v : list num) : num * num :=
  fold_left
    (fun '(cumPV, cumV) i => (cumPV + get p i * get v i, cumV + get v i))
    (seq 0 (length p)) (Fin 0, Fin 0).

Definition calculate_vwap (p v : list num) : option num :=
  if (length p <? 2)%nat || negb (length v =? length p)%nat then None
  else
    let '(cumPV, cumV) := vwap_loop p v in
    Some (cumPV / cumV).

Definition calculate_net_profit (entry exit : num) : num :=
  let gross := (exit - entry) / entry in
  let gross := gross - BROKER_COMMISSION_RATE * Fin 2 in
  let gross := if gross >? Fin 0 then gross * (Fin 1 - CAPITAL_GAIN_TAX_RATE)
               else gross in
  gross * Fin 100.

(** *** Simulation pass *)

Definition reasons_at (prices volumes : list num) (i : nat) : list string :=
  let p := get prices i in
  let rsi := calculate_rsi (slice_to (i + 1) prices) in
  let sma5 := calculate_sma (slice_to (i + 1) prices) SMA_SHORT_PERIOD in
  let sma20 := calculate_sma (slice_to (i + 1) prices) SMA_LONG_PERIOD in
  let vwap := calculate_vwap (slice_to (i + 1) prices) (slice_to (i + 1) volumes) in
  let '(macd, signal) := calculate_macd (slice_to (i + 1) prices) in
  let reasons := [] in
  let reasons :=
    match rsi with
    | Some r => if truthy r && (r <? RSI_BUY_THRESHOLD) then reasons ++ ["RSI<30"%string]
                else reasons
    | None => reasons
    end in
  let reasons :=
    match vwap with
    | Some w => if VWAP_CONDITION && truthy w && (p >? w)
                then reasons ++ ["VWAP 돌파"%string] else reasons
    | None => reasons
    end in
  let reasons :=
    match sma5, sma20 with
    | Some a, Some b => if truthy a && truthy b && (a >? b)
                        then reasons ++ ["골든크로스"%string] else reasons
    | _, _ => reasons
    end in
  let reasons :=
    match macd, signal with
    | Some m, Some s => if truthy m && truthy s && (m >? s)
                        then reasons ++ ["MACD 상향 돌파"%string] else reasons
    | _, _ => reasons
    end in
  reasons.

Definition sim_step (prices volumes : list num) (st : sim_state) (i : nat)
  : sim_state :=
  let p := get prices i in
  let reasons := reasons_at prices volumes i in
  if negb (holding st) && (length reasons =? 4)%nat then
    let st := set_entry p st in
    let st := set_entryIdx i st in
    let st := set_holding true st in
    push_log {| time := i; type := BUY; price := p;
                reason := Some (join reasons); profit := None |} st
  else if holding st then
    let net := calculate_net_profit (entry st) p in
    if (net >=? TAKE_PROFIT_PCT) || (net <=? STOP_LOSS_PCT)
       || (MAX_HOLD_TIME <=? i - entryIdx st)%nat
    then
      let st :=
        push_log {| time := i; type := SELL; price := p;
                    reason := None; profit := Some net |} st in
      set_holding false st
    else st
  else st.

Definition sim_run (prices volumes : list num) (n : nat) : sim_state :=
  fold_left (sim_step prices volumes) (seq 0 n) sim_init.

Definition simulate (prices volumes : list num) : list log :=
  newLogs (sim_run prices volumes (length prices)).

(** [cumulative], recomputed on every render. *)
Definition cumulative (logs : list log) : list num :=
  reducei
    (fun acc cur i =>
       acc ++ [or_zero (if (i =? 0)%nat then None else nth_error acc (i - 1))
               + or_zero (profit cur)])
    (filter is_sell logs) [].

(** *** Ingestion: [ws.onmessage] *)

(** [data.data[0]?.p] and [data.data[0]?.v || 1], then the guarded pushes. *)
Definition onmessage (st : buffers) (msg : message) : buffers :=
  match msg with
  | Trade data =>
      let price := option_map (fun t => Fin (p t)) (nth_error data 0) in
      let volume :=
        or_one (match nth_error data 0 with Some t => v t | None => None end) in
      match price with
      | Some price =>
          if truthy price then
            {| prices := slice_last 99 (prices st) ++ [price];
               volumes := slice_last 99 (volumes st) ++ [volume] |}
          else st
      | None => st
      end
  | Other => st
  end.
End Part000.

(* ================================================================== *)
(** ** The P&L formula and the RSI on binary64 doubles *)

Module Binary64.
Import PrimFloat.
Local Open Scope float_scope.

(** The doubles nearest to the decimal literals of the source. *)
Definition BROKER_COMMISSION_RATE : float := 0x1.2d77318fc5048p-9. (* 0.0023 *)
Definition CAPITAL_GAIN_TAX_RATE : float := 0x1.c28f5c28f5c29p-3.  (* 0.22 *)

Definition calculate_net_profit (entry exit : float) : float :=
  let gross := (exit - entry) / entry in
  let gross := gross - BROKER_COMMISSION_RATE * 2 in
  let gross := if 0 <? gross then gross * (1 - CAPITAL_GAIN_TAX_RATE) else gross in
  gross * 100.

Definition d100 : float := 100.
Definition d100_7 : float := 0x1.92ccccccccccdp+6.  (* 100.7 *)
Definition d0_195 : float := 0x1.8f5c28f5c28f6p-3.  (* 0.195 *)

(** [calculate_rsi] with the operations of binary64; [arr[i]] out of range
    is [undefined], NaN in arithmetic. *)
Definition get (arr : list float) (i : nat) : float := nth i arr nan.

Definition calculate_rsi (data : list float) : option float :=
  if (length data <? RSI_PERIOD + 1)%nat then None
  else
    let deltas :=
      mapi (fun i v => if (i =? 0)%nat then 0 else v - get data (i - 1)) data in
    let up := map (fun d => if 0 <? d then d else 0) deltas in
    let down := map (fun d => if d <? 0 then - d else 0) deltas in
    let avgUp := fold_left add (slice_last RSI_PERIOD up) 0 / 14 in
    let avgDown := fold_left add (slice_last RSI_PERIOD down) 0 / 14 in
    if avgDown =? 0 then Some 100
    else
      let rs := avgUp / avgDown in
      Some (100 - 100 / (1 + rs)).

(** The double nearest to 1e308, and fifteen finite prices that alternate
    between 1 and 1e308. *)
Definition d1e308 : float := 0x1.1ccf385ebc8ap+1023.

Definition overflow_prices : list float :=
  [1; d1e308; 1; d1e308; 1; d1e308; 1; d1e308; 1; d1e308; 1; d1e308; 1; d1e308; 1].
End Binary64.

(* ================================================================== *)
(** ** RSI when every arithmetic result is rounded *)

(** The order of the extended number line; NaN is related to nothing. *)
Definition num_le (x y : num) : Prop :=
  match x, y with
  | NaN, _ | _, NaN => False
  | NInf, _ | _, PInf => True
  | Fin a, Fin b => (a <= b)%Q
  | _, _ => False
  end.

(** A rounding sends the exact value of a finite result to the number that
    is stored in its place: a finite number or, on overflow, an infinity.
    It is monotone and leaves 0, 1 and 100 as they are.  Exact arithmetic
    ([Fin]) is one rounding; round-to-nearest of binary64 is another. *)
Record rounding (rnd : Q -> num) : Prop := mkRounding {
  rnd_mono : forall a b : Q, (a <= b)%Q -> num_le (rnd a) (rnd b);
  rnd_0 : num_eq (rnd 0) (Fin 0);
  rnd_1 : num_eq (rnd 1) (Fin 1);
  rnd_100 : num_eq (rnd 100) (Fin 100)
}.

(** [calculate_rsi] (the same text in both files) with every sum,
    difference and quotient rounded by [rnd]. *)
Module Rounded.
Section WithRounding.
Variable rnd : Q -> num.

Definition round (x : num) : num :=
  match x with
  | Fin q => rnd q
  | _ => x
  end.

Definition radd (x y : num) : num := round (x + y)%num.
Definition rsub (x y : num) : num := round (x - y)%num.
Definition rdiv (x y : num) : num := round (x / y)%num.

(** [arr.reduce((a, b) => a + b, 0)]. *)
Definition rsum (arr : list num) : num := fold_left radd arr (Fin 0).

(** [deltas], [up] and [down]. *)
Definition deltas (data : list num) : list num :=
  mapi (fun i v => if (i =? 0)%nat then Fin 0 else rsub v (get data (i - 1))) data.

Definition up (data : list num) : list num :=
  map (fun d => if (d >? Fin 0)%num then d else Fin 0) (deltas data).

Definition down (data : list num) : list num :=
  map (fun d => if (d <? Fin 0)%num then (- d)%num else Fin 0) (deltas data).

(** [(avgUp, avgDown)]. *)
Definition rsi_averages (data : list num) : num * num :=
  let avgUp := rdiv (rsum (slice_last RSI_PERIOD (up data))) (of_nat RSI_PERIOD) in
  let avgDown := rdiv (rsum (slice_last RSI_PERIOD (down data))) (of_nat RSI_PERIOD) in
  (avgUp, avgDown).

Definition calculate_rsi (data : list num) : option num :=
  if (length data <? RSI_PERIOD + 1)%nat then None
  else
    let '(avgUp, avgDown) := rsi_averages data in
    if (avgDown === Fin 0)%num then Some (Fin 100)
    else
      let rs := rdiv avgUp avgDown in
      Some (rsub (Fin 100) (rdiv (Fin 100) (radd (Fin 1) rs))).
End WithRounding.
End Rounded.

(** A rounding that only overflows: a result of magnitude 2^1024 or more,
    which no double can hold, becomes an infinity; smaller results are kept
    exactly. *)
Definition OVERFLOW : Q := inject_Z (2 ^ 1024).

Definition overflowing (q : Q) : num :=
  if Qle_bool OVERFLOW q then PInf
  else if Qle_bool q (- OVERFLOW) then NInf
  else Fin q.

(* ================================================================== *)
(** ** The ingestion handlers on arbitrary parsed messages *)

(** [JSON.parse] returns whatever the server sent: any JSON value, with
    numbers read as doubles, so that a number too large for a double is an
    infinity.  The handlers store what they find under [p] and [v] without
    checking that it is a number.  Module [Parsed] models them on every
    parsed value; the handlers of modules [Web] and [Part000] above are
    their restriction to well-formed messages. *)
Module Parsed.

#[warnings="-register-all"]
Inductive value : Type :=
| VUndefined
| VNull
| VBool (b : bool)
| VNumber (x : num)
| VString (s : string)
| VArray (items : list value)
| VObject (fields : list (string * value)).

(** ToBoolean. *)
Definition to_boolean (x : value) : bool :=
  match x with
  | VUndefined | VNull => false
  | VBool b => b
  | VNumber n => truthy n
  | VString s => negb (s =? "")%string
  | VArray _ | VObject _ => true
  end.

(** The property [k] of a parsed object, whose properties are listed with
    each name once; [undefined] when there is none. *)
Fixpoint lookup (k : string) (fields : list (string * value)) : value :=
  match fields with
  | [] => VUndefined
  | (k', x) :: rest => if (k' =? k)%string then x else lookup k rest
  end.

(** Reading a property throws a TypeError on [undefined] and [null]; the
    handler then stops before it has recorded anything.  [None] stands
    for that. *)

(** [x.k] for a name [k] that only objects can have. *)
Definition member (x : value) (k : string) : option value :=
  match x with
  | VUndefined | VNull => None
  | VObject fields => Some (lookup k fields)
  | _ => Some VUndefined
  end.

(** [x?.k]. *)
Definition optional_member (x : value) (k : string) : value :=
  match x with
  | VObject fields => lookup k fields
  | _ => VUndefined
  end.

(** [x.length]; only its truthiness is used, so the length of a string is
    counted in the units of the model's strings. *)
Definition length_of (x : value) : option value :=
  match x with
  | VUndefined | VNull => None
  | VString s => Some (VNumber (of_nat (String.length s)))
  | VArray items => Some (VNumber (of_nat (length items)))
  | VObject fields => Some (lookup "length" fields)
  | _ => Some VUndefined
  end.

(** [x[0]]; the first element of a string is a string of one unit. *)
Definition first (x : value) : option value :=
  match x with
  | VUndefined | VNull => None
  | VString s =>
      Some (match s with
            | EmptyString => VUndefined
            | String c _ => VString (String c EmptyString)
            end)
  | VArray items => Some (nth 0 items VUndefined)
  | VObject fields => Some (lookup "0" fields)
  | _ => Some VUndefined
  end.

(** [x === "trade"]. *)
Definition is_trade (x : value) : bool :=
  match x with
  | VString s => (s =? "trade")%string
  | _ => false
  end.

(** [volume || 1]. *)
Definition or_one (volume : value) : value :=
  if to_boolean volume then volume else VNumber (Fin 1).

Definition bind {A B : Type} (x : option A) (k : A -> option B) : option B :=
  match x with
  | Some a => k a
  | None => None
  end.

Notation "x <- e ;; k" := (bind e (fun x => k))
  (at level 61, e at next level, right associativity).

(** The two buffers at run time. *)
Record buffers : Type := mkBuf {
  prices : list value;
  volumes : list value
}.

Definition push (st : buffers) (price volume : value) : buffers :=
  {| prices := slice_last 99 (prices st) ++ [price];
     volumes := slice_last 99 (volumes st) ++ [volume] |}.

(** src/components/TradeSimWeb.tsx *)
Module Web.

(** The arguments [price] and [volume] with which the handler reaches
    [onTrade]; [None] when the test fails or an access throws. *)
Definition destructured (data : value) : option (value * value) :=
  ty <- member data "type" ;;
  if is_trade ty then
    d <- member data "data" ;;
    len <- length_of d ;;
    if to_boolean len then
      x <- first d ;;
      price <- member x "p" ;;
      volume <- member x "v" ;;
      Some (price, volume)
    else None
  else None.

Definition onTrade (st : buffers) (price volume : value) : buffers :=
  push st price volume.

Definition onmessage (st : buffers) (data : value) : buffers :=
  match destructured data with
  | Some (price, volume) => onTrade st price (or_one volume)
  | None => st
  end.
End Web.

(** src/unnamed/part_000 *)
Module Part000.

(** [data.data[0]] inside [if (data.type === "trade")]. *)
Definition first_entry (data : value) : option value :=
  ty <- member data "type" ;;
  if is_trade ty then
    d <- member data "data" ;;
    first d
  else None.

Definition onmessage (st : buffers) (data : value) : buffers :=
  match first_entry data with
  | Some x =>
      let price := optional_member x "p" in
      let volume := or_one (optional_member x "v") in
      if to_boolean price then push st price volume else st
  | None => st
  end.
End Part000.
End Parsed.

(* ================================================================== *)
(** ** Definitions used to state the properties *)

(** The P&L formula as the specification words it (section 4.4), on exact
    rationals: gross return, minus the round-trip commission, taxed only
    when still positive, as a percentage. *)
Definition net_profit_pct (entry exit : Q) : Q :=
  let gross := ((exit - entry) / entry)%Q in
  let gross := (gross - 0.0023 * 2)%Q in
  let gross := if negb (Qle_bool gross 0) then (gross * (1 - 0.22))%Q else gross in
  (gross * 100)%Q.

Definition empty_buffers : buffers := {| prices := []; volumes := [] |}.

(** The buffers after the handler has received the ticks [(price, volume)]
    in order. *)
Definition feed (ticks : list (num * num)) (st : buffers) : buffers :=
  fold_left (fun st t => Web.onTrade st (fst t) (snd t)) ticks st.

(** 150 ticks whose price is their input number. *)
Definition ticks150 : list (num * num) :=
  map (fun i => (of_nat i, Fin 1)) (seq 0 150).

(** [k] connection attempts in a row that each end in a close followed by
    the firing of the reconnect timer. *)
Definition failed_attempts (k : nat) : list Web.ws_event :=
  concat (repeat [Web.EvClose; Web.EvTimer] k).

(** The events of a log alternate BUY, SELL, BUY, ... and start with a BUY. *)
Definition alternating (l : list log) : Prop :=
  forall k e, nth_error l k = Some e ->
              type e = if Nat.even k then BUY else SELL.

(** Each event of a log is strictly later than the event before it. *)
Definition increasing (l : list log) : Prop :=
  forall k e1 e2,
    nth_error l k = Some e1 -> nth_error l (S k) = Some e2 ->
    (time e1 < time e2)%nat.

(** Every SELL of a log directly follows a BUY with a smaller time index. *)
Definition sell_after_buy (l : list log) : Prop :=
  forall k s,
    nth_error l k = Some s -> type s = SELL ->
    exists k' b,
      k = S k' /\ nth_error l k' = Some b /\ type b = BUY /\
      (time b < time s)%nat.

(** What the loop maintains after running over indices [0 .. n - 1]. *)
Record sim_inv (st : sim_state) (n : nat) : Prop := mkInv {
  inv_alternating : alternating (newLogs st);
  inv_increasing : increasing (newLogs st);
  inv_before : forall e, In e (newLogs st) -> (time e < n)%nat;
  inv_holding : holding st = Nat.odd (length (newLogs st));
  inv_entry : holding st = true ->
              exists b, at_last (newLogs st) = Some b /\ type b = BUY /\
                        time b = entryIdx st
}.

(** The BUY condition as the specification states it (section 4.2) at
    index [i]: all four indicators are present and each satisfies its
    condition. *)
Definition spec_buy_condition (prices volumes : list num) (i : nat) : bool :=
  let p := get prices i in
  let pre := slice_to (i + 1) prices in
  match Web.calculate_rsi pre,
        Web.calculate_vwap pre (slice_to (i + 1) volumes),
        Web.calculate_sma pre SMA_SHORT_PERIOD,
        Web.calculate_sma pre SMA_LONG_PERIOD,
        Web.calculate_macd pre with
  | Some rsi, Some vwap, Some sma5, Some sma20, (Some macd, Some signal) =>
      (rsi <? Fin 30)%num && (p >? vwap)%num && (sma5 >? sma20)%num
      && (macd >? signal)%num
  | _, _, _, _, _ => false
  end.

(** The condition the guards of [simulate] test: as above, and every
    indicator value is also truthy (neither 0 nor NaN). *)
Definition truthy_buy_condition (prices volumes : list num) (i : nat) : bool :=
  let p := get prices i in
  let pre := slice_to (i + 1) prices in
  match Web.calculate_rsi pre,
        Web.calculate_vwap pre (slice_to (i + 1) volumes),
        Web.calculate_sma pre SMA_SHORT_PERIOD,
        Web.calculate_sma pre SMA_LONG_PERIOD,
        Web.calculate_macd pre with
  | Some rsi, Some vwap, Some sma5, Some sma20, (Some macd, Some signal) =>
      (truthy rsi && (rsi <? Fin 30)%num)
      && (truthy vwap && (p >? vwap)%num)
      && (truthy sma5 && truthy sma20 && (sma5 >? sma20)%num)
      && (truthy macd && truthy signal && (macd >? signal)%num)
  | _, _, _, _, _ => false
  end.

(** The events the loop iteration at index [i] appends to the log. *)
Definition step_events (prices volumes : list num) (i : nat) : list log :=
  skipn (length (newLogs (Web.sim_run prices volumes i)))
        (newLogs (Web.sim_run prices volumes (S i))).

Definition is_buy (e : log) : bool :=
  match type e with BUY => true | SELL => false end.

(** A BUY event is emitted at index [i]. *)
Definition emits_buy (prices volumes : list num) (i : nat) : bool :=
  existsb is_buy (step_events prices volumes i).

(** A spike, a flat stretch on heavy volume, a step up and one tick down:
    at index 26 the last 14 deltas hold one loss and no gain. *)
Definition oversold_prices : list num :=
  map Fin ([1000] ++ repeat 1 11 ++ [3] ++ repeat 2 14)%Q.

Definition oversold_volumes : list num :=
  map Fin ([1] ++ repeat 1000 11 ++ repeat 1 15)%Q.

(** The same series with a small gain at index 26 (RSI just above 0), then
    a rise that reaches the take-profit level. *)
Definition rebound_prices : list num :=
  map Fin ([1000] ++ repeat 1 11 ++ [3] ++ repeat 2 13
           ++ [2.01; 2.02; 2.05; 2.05; 2.0; 1.9])%Q.

Definition rebound_volumes : list num :=
  map Fin ([1] ++ repeat 1000 11 ++ repeat 1 20)%Q.

(** What the loop maintains about the contents of the log, after running
    over indices [0 .. n - 1] of [prices]. *)
Record log_inv (prices : list num) (st : sim_state) (n : nat) : Prop := mkLogInv {
  li_late : forall e, In e (newLogs st) -> (26 <= time e)%nat;
  li_price : forall e, In e (newLogs st) -> price e = get prices (time e);
  li_fields : forall e, In e (newLogs st) ->
              match type e with
              | BUY => reason e <> None /\ profit e = None
              | SELL => reason e = None /\ profit e <> None
              end;
  li_pairs : forall k b s,
      nth_error (newLogs st) k = Some b ->
      nth_error (newLogs st) (S k) = Some s ->
      type b = BUY ->
      profit s = Some (Web.calculate_net_profit (price b) (price s)) /\
      (time s <= time b + MAX_HOLD_TIME)%nat;
  li_open : holding st = true ->
            exists b, at_last (newLogs st) = Some b /\ price b = entry st /\
                      time b = entryIdx st /\
                      (n <= entryIdx st + MAX_HOLD_TIME)%nat
}.

(** Price series that never fall, and that never rise. *)
Definition nondecreasing (qs : list Q) : Prop :=
  forall i, (S i < length qs)%nat -> (nth i qs 0 <= nth (S i) qs 0)%Q.

Definition nonincreasing (qs : list Q) : Prop :=
  forall i, (S i < length qs)%nat -> (nth (S i) qs 0 <= nth i qs 0)%Q.

(** A finite number that is not positive, and one that is zero. *)
Definition nonpos (x : num) : Prop :=
  match x with Fin q => (q <= 0)%Q | _ => False end.

Definition is_zero (x : num) : Prop :=
  match x with Fin q => (q == 0)%Q | _ => False end.

(** A decidable test on every pair of neighbours of a series. *)
Fixpoint adjacent_all (R : Q -> Q -> bool) (qs : list Q) : bool :=
  match qs with
  | a :: (b :: _) as rest => R a b && adjacent_all R rest
  | _ => true
  end.

(** Thirty rising and thirty falling prices. *)
Definition rising30 : list Q :=
  [100; 101; 102; 103; 104; 105; 106; 107; 108; 109;
   110; 111; 112; 113; 114; 115; 116; 117; 118; 119;
   120; 121; 122; 123; 124; 125; 126; 127; 128; 129]%Q.
Definition falling30 : list Q := rev rising30.

(** Exact sums, to state what the loops compute: the sum of a series and
    the sum of the products of two series. *)
Fixpoint sumQ (l : list Q) : Q :=
  match l with
  | [] => 0
  | x :: r => x + sumQ r
  end.

Fixpoint dotQ (ps vs : list Q) : Q :=
  match ps, vs with
  | p :: ps', v :: vs' => p * v + dotQ ps' vs'
  | _, _ => 0
  end.

(** A log with two closed trades. *)
Definition sample_log : list log :=
  [ {| time := 26; type := BUY; price := Fin 100; reason := Some "r"%string;
       profit := None |};
    {| time := 30; type := SELL; price := Fin 102; reason := None;
       profit := Some (Fin 1.2) |};
    {| time := 40; type := BUY; price := Fin 101; reason := Some "r"%string;
       profit := None |};
    {| time := 41; type := SELL; price := Fin 100; reason := None;
       profit := Some (Fin (-1.4)) |} ].

(** The two averages in the words of the specification: the changes
    between consecutive prices, the gain and the loss of a change, and the
    mean of the gains and of the losses over the changes within the last
    [RSI_PERIOD + 1] prices, computed with the rounding [rnd]. *)
Fixpoint changes (rnd : Q -> num) (data : list num) : list num :=
  match data with
  | a :: (b :: _) as rest => Rounded.rsub rnd b a :: changes rnd rest
  | _ => []
  end.

Definition gain (d : num) : num := if (d >? Fin 0)%num then d else Fin 0.

Definition loss (d : num) : num := if (d <? Fin 0)%num then (- d)%num else Fin 0.

Definition average_gain (rnd : Q -> num) (data : list num) : num :=
  Rounded.rdiv rnd
    (Rounded.rsum rnd (map gain (changes rnd (slice_last (RSI_PERIOD + 1) data))))
    (of_nat RSI_PERIOD).

Definition average_loss (rnd : Q -> num) (data : list num) : num :=
  Rounded.rdiv rnd
    (Rounded.rsum rnd (map loss (changes rnd (slice_last (RSI_PERIOD + 1) data))))
    (of_nat RSI_PERIOD).

(** A number that is not negative: finite and at least 0, or +Infinity. *)
Definition nonneg_or_inf (x : num) : Prop :=
  match x with
  | Fin q => (0 <= q)%Q
  | PInf => True
  | _ => False
  end.

(** A finite number between two bounds. *)
Definition within (a b : Q) (x : num) : Prop :=
  match x with Fin q => (a <= q <= b)%Q | _ => False end.

(** None of the last [RSI_PERIOD] prices is below the price before it. *)
Definition no_fall (data : list num) : Prop :=
  forall k, (length data - RSI_PERIOD <= k < length data)%nat ->
            (get data k <? get data (k - 1))%num = false.

(** Fifteen finite prices that alternate between 1 and 1e308, and fifteen
    prices of which one is Infinity (the value of the JSON number 1e400). *)
Definition e308 : Q := inject_Z (10 ^ 308).

Definition alternating_prices : list num :=
  map Fin [1; e308; 1; e308; 1; e308; 1; e308; 1; e308; 1; e308; 1; e308; 1]%Q.

Definition infinite_price : list num :=
  [Fin 1; Fin 1; Fin 1; Fin 1; Fin 1; Fin 1; Fin 1; Fin 1; Fin 1; Fin 1;
   Fin 1; Fin 1; Fin 1; PInf; Fin 1].

(** The socket of the current run is closed by the server [k] times; after
    each close the component renders twice (once for the label set by
    [onclose], once for the label set by [connect]), which starts two new
    runs of the effect.  [g] is the current run at the start. *)
Fixpoint server_closes (g k : nat) : list Web.component_event :=
  match k with
  | O => []
  | S k' => Web.SocketClose g :: Web.Render :: Web.Render :: server_closes (g + 2) k'
  end.

(** What holds of the component at every moment: the retry counter is 0,
    every delay handed to [setTimeout] was 1000 ms, no timer can expire,
    and whenever no render is pending the label is the one set by
    [connect]. *)
Record component_inv (h : Web.component) : Prop := mkComponentInv {
  inv_retry : Web.retryCount (Web.hook h) = 0%nat;
  inv_mounted : Web.mounted (Web.hook h) = true;
  inv_delays : Forall (fun d => d = 1000%Z) (Web.scheduled (Web.hook h));
  inv_timer : Web.timer_live h = false;
  inv_status : Web.render_pending h = false ->
               Web.st_status (Web.hook h) = Web.Connecting
}.

(** The number of renders among the events. *)
Definition renders (es : list Web.component_event) : nat :=
  length (filter (fun e => match e with Web.Render => true | _ => false end) es).

(** The buffers at run time after a handler has processed the parsed
    messages in order, starting from the empty buffers of [useState([])]. *)
Definition no_samples : Parsed.buffers :=
  {| Parsed.prices := []; Parsed.volumes := [] |}.

Definition ingest_web (msgs : list Parsed.value) : Parsed.buffers :=
  fold_left Parsed.Web.onmessage msgs no_samples.

Definition ingest_part000 (msgs : list Parsed.value) : Parsed.buffers :=
  fold_left Parsed.Part000.onmessage msgs no_samples.

(** The messages after which each handler records a tick. *)
Definition recorded_web (data : Parsed.value) : bool :=
  match Parsed.Web.destructured data with
  | Some _ => true
  | None => false
  end.

Definition recorded_part000 (data : Parsed.value) : bool :=
  match Parsed.Part000.first_entry data with
  | Some x => Parsed.to_boolean (Parsed.optional_member x "p")
  | None => false
  end.

Definition is_truthy (x : Parsed.value) : Prop := Parsed.to_boolean x = true.

(** A well-formed message as the parsed value the handlers receive, and
    buffers of numbers as run-time buffers. *)
Definition encode_trade (t : trade) : Parsed.value :=
  Parsed.VObject
    (("p"%string, Parsed.VNumber (Fin (p t)))
     :: match v t with
        | Some q => [("v"%string, Parsed.VNumber (Fin q))]
        | None => []
        end).

Definition encode (msg : message) : Parsed.value :=
  match msg with
  | Trade data =>
      Parsed.VObject [("type"%string, Parsed.VString "trade");
                      ("data"%string, Parsed.VArray (map encode_trade data))]
  | Other => Parsed.VObject [("type"%string, Parsed.VString "ping")]
  end.

Definition at_run_time (st : buffers) : Parsed.buffers :=
  {| Parsed.prices := map Parsed.VNumber (prices st);
     Parsed.volumes := map Parsed.VNumber (volumes st) |}.

(** A position entered at index 0 at the price 100, and ninety-one ticks
    at that price. *)
Definition held_at_100 : sim_state :=
  {| holding := true; entry := Fin 100; entryIdx := 0; newLogs := [] |}.

Definition flat_prices : list num := repeat (Fin 100) 91.

(* ================================================================== *)
(** ** Facts about numbers *)

Lemma Qeq_bool_false (a b : Q) : Qeq_bool a b = false <-> ~ (a == b)%Q.
Proof.
  split.
  - intros H E. apply Qeq_bool_iff in E. congruence.
  - intros H. destruct (Qeq_bool a b) eqn:E; [|reflexivity].
    apply Qeq_bool_iff in E. contradiction.
Qed.

Lemma Qle_bool_false (a b : Q) : Qle_bool a b = false <-> (b < a)%Q.
Proof.
  split.
  - intros H. apply Qnot_le_lt. intros E. apply Qle_bool_iff in E. congruence.
  - intros H. destruct (Qle_bool a b) eqn:E; [|reflexivity].
    apply Qle_bool_iff in E. lra.
Qed.

Lemma nlt_fin (a b : Q) : (Fin a <? Fin b)%num = true <-> (a < b)%Q.
Proof.
  cbn. rewrite negb_true_iff. apply Qle_bool_false.
Qed.

Lemma nlt_fin_false (a b : Q) : (Fin a <? Fin b)%num = false <-> (b <= a)%Q.
Proof.
  cbn. rewrite negb_false_iff. apply Qle_bool_iff.
Qed.

Lemma ngt_fin (a b : Q) : (Fin a >? Fin b)%num = true <-> (b < a)%Q.
Proof. unfold ngt. apply nlt_fin. Qed.

Lemma neqb_fin (a b : Q) : (Fin a === Fin b)%num = true <-> (a == b)%Q.
Proof. cbn. apply Qeq_bool_iff. Qed.

Lemma nle_fin (a b : Q) : (Fin a <=? Fin b)%num = true <-> (a <= b)%Q.
Proof.
  unfold nle. rewrite orb_true_iff, nlt_fin, neqb_fin. split.
  - intros [H | H]; lra.
  - intros H. destruct (Qlt_le_dec a b) as [L | L]; [left; exact L|right; lra].
Qed.

Lemma nge_fin (a b : Q) : (Fin a >=? Fin b)%num = true <-> (b <= a)%Q.
Proof. unfold nge. apply nle_fin. Qed.

Lemma ndiv_fin (a b : Q) : ~ (b == 0)%Q -> (Fin a / Fin b)%num = Fin (a / b).
Proof.
  intros H. cbn. apply Qeq_bool_false in H. now rewrite H.
Qed.

Lemma truthy_fin (a : Q) : truthy (Fin a) = true <-> ~ (a == 0)%Q.
Proof. cbn. rewrite negb_true_iff. apply Qeq_bool_false. Qed.

(* ================================================================== *)
(** ** P&L calculator *)

Lemma calculate_net_profit_fin (entry exit : Q) :
  ~ (entry == 0)%Q ->
  Web.calculate_net_profit (Fin entry) (Fin exit) = Fin (net_profit_pct entry exit).
Proof.
  intros H. apply Qeq_bool_false in H.
  unfold Web.calculate_net_profit, net_profit_pct, BROKER_COMMISSION_RATE,
    CAPITAL_GAIN_TAX_RATE, ngt, nsub.
  cbn [nneg nadd ndiv nmul nlt]. rewrite H. cbn [nneg nadd ndiv nmul nlt].
  fold (Qminus exit entry).
  destruct (Qle_bool _ 0); reflexivity.
Qed.

Lemma calculate_net_profit_same (entry exit : num) :
  Part000.calculate_net_profit entry exit = Web.calculate_net_profit entry exit.
Proof. reflexivity. Qed.

(** The formula is non-decreasing in the exit price. *)
Lemma net_profit_pct_mono (entry e1 e2 : Q) :
  (0 < entry)%Q -> (e1 <= e2)%Q ->
  (net_profit_pct entry e1 <= net_profit_pct entry e2)%Q.
Proof.
  intros Hpos Hle. unfold net_profit_pct.
  assert (Hg : ((e1 - entry) / entry <= (e2 - entry) / entry)%Q).
  { apply Qmult_le_compat_r; [lra|].
    apply Qlt_le_weak, Qinv_lt_0_compat, Hpos. }
  set (g1 := ((e1 - entry) / entry - 0.0023 * 2)%Q).
  set (g2 := ((e2 - entry) / entry - 0.0023 * 2)%Q).
  assert (H12 : (g1 <= g2)%Q) by (unfold g1, g2; lra).
  destruct (Qle_bool g1 0) eqn:E1; destruct (Qle_bool g2 0) eqn:E2; cbn [negb].
  - lra.
  - apply Qle_bool_iff in E1. apply Qle_bool_false in E2. lra.
  - apply Qle_bool_false in E1. apply Qle_bool_iff in E2. lra.
  - lra.
Qed.

(** C2 (amended): for every entry > 0 and every exit, both implementations of
    [calculate_net_profit] compute the specification's four steps in order:
    gross = (exit - entry) / entry, then minus 0.0023 * 2, then times
    (1 - 0.22) only if the result so far is positive, then times 100.  At
    entry = 100, exit = 100.7 the result is 0.1872. *)
Theorem net_profit_order_C2 (entry exit : Q) :
  (0 < entry)%Q ->
  Web.calculate_net_profit (Fin entry) (Fin exit) = Fin (net_profit_pct entry exit) /\
  Part000.calculate_net_profit (Fin entry) (Fin exit) = Fin (net_profit_pct entry exit) /\
  ((exit - entry) / entry - 0.0046 <= 0 ->
   net_profit_pct entry exit == ((exit - entry) / entry - 0.0046) * 100)%Q /\
  (0 < (exit - entry) / entry - 0.0046 ->
   net_profit_pct entry exit == ((exit - entry) / entry - 0.0046) * 0.78 * 100)%Q /\
  num_eq (Web.calculate_net_profit (Fin 100) (Fin 100.7)) (Fin 0.1872).
Proof.
  intros Hpos.
  assert (Hne : ~ (entry == 0)%Q) by lra.
  split; [|split; [|split; [|split]]].
  - apply calculate_net_profit_fin, Hne.
  - rewrite calculate_net_profit_same. apply calculate_net_profit_fin, Hne.
  - intros Hle. unfold net_profit_pct.
    destruct (Qle_bool _ 0) eqn:E; cbn [negb].
    + lra.
    + apply Qle_bool_false in E. lra.
  - intros Hlt. unfold net_profit_pct.
    destruct (Qle_bool _ 0) eqn:E; cbn [negb].
    + apply Qle_bool_iff in E. lra.
    + lra.
  - vm_compute. reflexivity.
Qed.

Lemma net_profit_order_C2_witness :
  (0 < 100)%Q /\
  Web.calculate_net_profit (Fin 100) (Fin 99.4) = Fin (net_profit_pct 100 99.4).
Proof.
  split; [reflexivity | apply (net_profit_order_C2 100 99.4); reflexivity].
Defined.

(** C2 as stated fails at its own example: entry = 100, exit = 100.7 does not
    yield 0.195, neither in exact arithmetic nor on binary64 doubles. *)
Lemma net_profit_example_not_0_195 :
  ~ num_eq (Web.calculate_net_profit (Fin 100) (Fin 100.7)) (Fin 0.195) /\
  PrimFloat.eqb (Binary64.calculate_net_profit Binary64.d100 Binary64.d100_7)
                Binary64.d0_195 = false.
Proof.
  split.
  - vm_compute. discriminate.
  - vm_compute. reflexivity.
Qed.

(** C9: for every fixed entry > 0 the net profit is monotonically increasing
    in the exit price: exit1 <= exit2 gives
    net_profit(entry, exit1) <= net_profit(entry, exit2), in both
    implementations. *)
Theorem net_profit_monotone_C9 (entry exit1 exit2 : Q) :
  (0 < entry)%Q -> (exit1 <= exit2)%Q ->
  (Web.calculate_net_profit (Fin entry) (Fin exit1)
   <=? Web.calculate_net_profit (Fin entry) (Fin exit2))%num = true /\
  (Part000.calculate_net_profit (Fin entry) (Fin exit1)
   <=? Part000.calculate_net_profit (Fin entry) (Fin exit2))%num = true.
Proof.
  intros Hpos Hle.
  assert (Hne : ~ (entry == 0)%Q) by lra.
  change (Part000.calculate_net_profit (Fin entry) (Fin exit1))
    with (Web.calculate_net_profit (Fin entry) (Fin exit1)).
  change (Part000.calculate_net_profit (Fin entry) (Fin exit2))
    with (Web.calculate_net_profit (Fin entry) (Fin exit2)).
  rewrite (calculate_net_profit_fin entry exit1 Hne), (calculate_net_profit_fin entry exit2 Hne).
  split; apply nle_fin, net_profit_pct_mono; assumption.
Qed.

Lemma net_profit_monotone_C9_witness :
  (0 < 100)%Q /\ (99.4 <= 100.7)%Q /\
  (Web.calculate_net_profit (Fin 100) (Fin 99.4)
   <=? Web.calculate_net_profit (Fin 100) (Fin 100.7))%num = true.
Proof.
  split; [reflexivity | split; [discriminate |]].
  apply (net_profit_monotone_C9 100 99.4 100.7); [reflexivity | discriminate].
Defined.

(* ================================================================== *)
(** ** Facts about the array operations *)

Section ArrayFacts.
Context {A B : Type}.

Lemma mapi_from_length (f : nat -> A -> B) (arr : list A) :
  forall i, length (mapi_from f i arr) = length arr.
Proof.
  induction arr as [|x arr IH]; intros i; cbn; [reflexivity|].
  now rewrite IH.
Qed.

Lemma mapi_length (f : nat -> A -> B) (arr : list A) :
  length (mapi f arr) = length arr.
Proof. apply mapi_from_length. Qed.

(** Every element of [mapi f arr] is [f k x] for the element [x] at index [k]. *)
Lemma Forall_mapi_from (P : B -> Prop) (f : nat -> A -> B) (arr : list A) :
  forall i,
    (forall k x, nth_error arr k = Some x -> P (f (i + k)%nat x)) ->
    Forall P (mapi_from f i arr).
Proof.
  induction arr as [|x arr IH]; intros i H; cbn; constructor.
  - specialize (H 0%nat x eq_refl). now rewrite Nat.add_0_r in H.
  - apply IH. intros k y Hk. specialize (H (S k) y Hk).
    now rewrite Nat.add_succ_r in H.
Qed.

Lemma Forall_slice_last (P : A -> Prop) (n : nat) (arr : list A) :
  Forall P arr -> Forall P (slice_last n arr).
Proof.
  intros H. unfold slice_last. destruct (n =? 0)%nat; [exact H|].
  rewrite <- (firstn_skipn (length arr - n) arr) in H.
  apply Forall_app in H. apply H.
Qed.

Lemma slice_last_length (n : nat) (arr : list A) :
  (0 < n)%nat -> length (slice_last n arr) = Nat.min n (length arr).
Proof.
  intros Hn. unfold slice_last.
  destruct (Nat.eqb_spec n 0); [lia|].
  rewrite length_skipn. lia.
Qed.

Lemma at_last_app (arr : list A) (x : A) : at_last (arr ++ [x]) = Some x.
Proof. unfold at_last. now rewrite rev_unit. Qed.

Lemma at_last_none (arr : list A) : at_last arr = None <-> arr = [].
Proof.
  unfold at_last. split.
  - destruct (rev arr) eqn:E; [|discriminate]. intros _.
    apply (f_equal (@rev A)) in E. now rewrite rev_involutive in E.
  - intros ->. reflexivity.
Qed.
End ArrayFacts.

(** A reducer that pushes one element per step returns an array as long as
    its input. *)
Lemma reducei_from_push_length {A B : Type} (f : list B -> A -> nat -> list B)
      (arr : list A) :
  (forall acc cur i, length (f acc cur i) = S (length acc)) ->
  forall i acc,
    length (reducei_from f i arr acc) = (length acc + length arr)%nat.
Proof.
  intros Hf. induction arr as [|x arr IH]; intros i acc; cbn.
  - lia.
  - rewrite IH, Hf. lia.
Qed.

Lemma ema_length (arr : list num) (n : nat) :
  length (Web.ema arr n) = length arr.
Proof.
  unfold Web.ema, reducei.
  rewrite reducei_from_push_length; [reflexivity|].
  intros acc cur i. destruct (i =? 0)%nat; rewrite length_app; cbn; lia.
Qed.

(* ================================================================== *)
(** ** Absent results of the indicator functions *)

Lemma calculate_sma_none (data : list num) (period : nat) :
  Web.calculate_sma data period = None <-> (length data < period)%nat.
Proof.
  unfold Web.calculate_sma.
  destruct (Nat.ltb_spec (length data) period); split;
    intros; try discriminate; try reflexivity; lia.
Qed.

Lemma calculate_rsi_none (data : list num) :
  Web.calculate_rsi data = None <-> (length data < 15)%nat.
Proof.
  unfold Web.calculate_rsi. change (RSI_PERIOD + 1)%nat with 15%nat.
  destruct (Nat.ltb_spec (length data) 15).
  - tauto.
  - destruct (Web.rsi_averages data) as [avgUp avgDown].
    destruct (avgDown === Fin 0)%num; split; intros; try discriminate; lia.
Qed.

Lemma calculate_macd_some (data : list num) :
  (26 <= length data)%nat ->
  exists m s, Web.calculate_macd data = (Some m, Some s).
Proof.
  intros Hlen. unfold Web.calculate_macd. change MACD_SLOW with 26%nat.
  destruct (Nat.ltb_spec (length data) 26); [lia|].
  set (macd := mapi _ (Web.ema data MACD_FAST)).
  assert (Hm : length macd = length data).
  { unfold macd. now rewrite mapi_length, ema_length. }
  set (signal := Web.ema _ MACD_SIGNAL).
  assert (Hs : length signal = (length data - 25)%nat).
  { unfold signal, slice_from. rewrite ema_length, length_skipn, Hm. lia. }
  destruct (at_last macd) as [m|] eqn:Em.
  - destruct (at_last signal) as [s|] eqn:Es; [now exists m, s|].
    apply at_last_none in Es. rewrite Es in Hs. cbn in Hs. lia.
  - apply at_last_none in Em. rewrite Em in Hm. cbn in Hm. lia.
Qed.

Lemma calculate_macd_none (data : list num) :
  (length data < 26)%nat -> Web.calculate_macd data = (None, None).
Proof.
  intros Hlen. unfold Web.calculate_macd. change MACD_SLOW with 26%nat.
  destruct (Nat.ltb_spec (length data) 26); [reflexivity|lia].
Qed.

Lemma calculate_vwap_none (p v : list num) :
  Web.calculate_vwap p v = None <->
  ((length p < 2)%nat \/ length v <> length p).
Proof.
  unfold Web.calculate_vwap.
  destruct (Nat.ltb_spec (length p) 2); cbn [orb].
  - split; [intros _; now left | reflexivity].
  - destruct (Nat.eqb_spec (length v) (length p)); cbn [negb].
    + destruct (Web.vwap_loop p v). split; [discriminate|]. intros [?|?]; [lia|contradiction].
    + split; [intros _; now right | reflexivity].
Qed.

(** C8: each indicator function is total and returns an absent value exactly
    when history is insufficient, and a number otherwise: [calculate_sma] is
    absent iff len(data) < period, [calculate_rsi] iff len(data) < 15,
    both components of [calculate_macd] iff len(data) < 26, and
    [calculate_vwap] iff there are fewer than 2 points or the prices and
    volumes lengths differ. *)
Theorem indicators_absent_C8 :
  (forall data period,
      Web.calculate_sma data period = None <-> (length data < period)%nat) /\
  (forall data, Web.calculate_rsi data = None <-> (length data < 15)%nat) /\
  (forall data,
      (fst (Web.calculate_macd data) = None <-> (length data < 26)%nat) /\
      (snd (Web.calculate_macd data) = None <-> (length data < 26)%nat)) /\
  (forall p v,
      Web.calculate_vwap p v = None <->
      ((length p < 2)%nat \/ length v <> length p)).
Proof.
  split; [exact calculate_sma_none|].
  split; [exact calculate_rsi_none|].
  split; [|exact calculate_vwap_none].
  intros data. destruct (Nat.lt_ge_cases (length data) 26) as [Hlt | Hge].
  - rewrite (calculate_macd_none data Hlt). cbn. tauto.
  - destruct (calculate_macd_some data Hge) as (m & s & E). rewrite E. cbn.
    split; split; intros; try discriminate; lia.
Qed.

(* ================================================================== *)
(** ** RSI *)

Lemma down_nonneg (d : num) :
  finite d -> nonneg (if (d <? Fin 0)%num then (- d)%num else Fin 0).
Proof.
  destruct d as [q| | |]; cbn [finite]; try tauto. intros _.
  destruct (Fin q <? Fin 0)%num eqn:E.
  - apply nlt_fin in E. cbn. lra.
  - cbn. lra.
Qed.

Lemma fold_nadd_nonneg (arr : list num) :
  Forall nonneg arr ->
  forall acc, nonneg acc -> nonneg (fold_left nadd arr acc).
Proof.
  induction 1 as [|x arr Hx _ IH]; intros acc Hacc; cbn; [exact Hacc|].
  apply IH. destruct acc, x; cbn in *; try tauto. lra.
Qed.

Lemma sum_nonneg (arr : list num) : Forall nonneg arr -> nonneg (sum arr).
Proof.
  intros H. apply fold_nadd_nonneg; [exact H|]. cbn. lra.
Qed.

(** Dividing a non-negative sum by the period: a finite, non-negative mean. *)
Lemma mean_nonneg (s : num) :
  nonneg s ->
  exists a, (s / of_nat RSI_PERIOD)%num = Fin a /\ (0 <= a)%Q.
Proof.
  destruct s as [q| | |]; cbn [nonneg]; try tauto. intros Hq.
  exists (q / inject_Z 14)%Q. split; [reflexivity|].
  apply Qle_shift_div_l; [reflexivity|lra].
Qed.

(** *** Rounded arithmetic *)

Lemma nth_mapi_from {A B : Type} (f : nat -> A -> B) (arr : list A) (d : A) (d' : B) :
  forall i k, (k < length arr)%nat ->
              nth k (mapi_from f i arr) d' = f (i + k)%nat (nth k arr d).
Proof.
  induction arr as [|x arr IH]; intros i k Hk; cbn in Hk; [lia|].
  destruct k as [|k]; cbn [mapi_from nth].
  - now rewrite Nat.add_0_r.
  - rewrite IH by lia. f_equal. lia.
Qed.

Lemma nth_map_in {A B : Type} (f : A -> B) (l : list A) (k : nat) (d : A) (d' : B) :
  (k < length l)%nat -> nth k (map f l) d' = f (nth k l d).
Proof.
  intros Hk. rewrite (nth_indep _ d' (f d)) by now rewrite length_map.
  apply map_nth.
Qed.

Lemma Forall_skipn_nth {A : Type} (P : A -> Prop) (m : nat) (l : list A) (d : A) :
  (forall k, (m <= k < length l)%nat -> P (nth k l d)) -> Forall P (skipn m l).
Proof.
  intros H. apply Forall_nth. intros i d' Hi. rewrite length_skipn in Hi.
  rewrite nth_skipn, (nth_indep l d' d) by lia. apply H. lia.
Qed.

Lemma round_exact (x : num) : Rounded.round Fin x = x.
Proof. now destruct x. Qed.

Lemma exact_rounding : rounding Fin.
Proof.
  constructor; cbn; intros; try reflexivity; assumption.
Qed.

Lemma overflowing_cases (q : Q) :
  (overflowing q = PInf /\ (OVERFLOW <= q)%Q) \/
  (overflowing q = NInf /\ (q <= - OVERFLOW)%Q) \/
  (overflowing q = Fin q /\ (- OVERFLOW < q < OVERFLOW)%Q).
Proof.
  unfold overflowing.
  destruct (Qle_bool OVERFLOW q) eqn:E1.
  - left. split; [reflexivity|]. now apply Qle_bool_iff.
  - apply Qle_bool_false in E1.
    destruct (Qle_bool q (- OVERFLOW)) eqn:E2.
    + right; left. split; [reflexivity|]. now apply Qle_bool_iff.
    + apply Qle_bool_false in E2. right; right. split; [reflexivity|]. lra.
Qed.

Lemma OVERFLOW_large : (100 < OVERFLOW)%Q.
Proof. reflexivity. Qed.

Lemma overflowing_small (q : Q) :
  (- 100 <= q <= 100)%Q -> overflowing q = Fin q.
Proof.
  intros H. pose proof OVERFLOW_large as HO.
  destruct (overflowing_cases q) as [[_ H1] | [[_ H1] | [E _]]]; [lra|lra|exact E].
Qed.

Lemma overflowing_rounding : rounding overflowing.
Proof.
  constructor.
  - intros a b Hab. pose proof OVERFLOW_large as HO.
    destruct (overflowing_cases a) as [[-> Ha] | [[-> Ha] | [-> Ha]]];
      destruct (overflowing_cases b) as [[-> Hb] | [[-> Hb] | [-> Hb]]];
      cbn; try exact I; try lra.
  - rewrite overflowing_small by lra. cbn. reflexivity.
  - rewrite overflowing_small by lra. cbn. reflexivity.
  - rewrite overflowing_small by lra. cbn. reflexivity.
Qed.

Section RoundingFacts.
Variable rnd : Q -> num.
Hypothesis Hrnd : rounding rnd.

Lemma rnd_nonneg (q : Q) : (0 <= q)%Q -> nonneg_or_inf (rnd q).
Proof.
  intros Hq.
  pose proof (rnd_mono rnd Hrnd 0 q Hq) as H.
  pose proof (rnd_0 rnd Hrnd) as H0.
  destruct (rnd 0) as [z| | |]; cbn in H0; try tauto.
  destruct (rnd q) as [y| | |]; cbn in H |- *; try tauto. lra.
Qed.

Lemma rnd_within_100 (q : Q) : (0 <= q <= 100)%Q -> within 0 100 (rnd q).
Proof.
  intros [Hq0 Hq1].
  pose proof (rnd_mono rnd Hrnd 0 q Hq0) as H.
  pose proof (rnd_mono rnd Hrnd q 100 Hq1) as H'.
  pose proof (rnd_0 rnd Hrnd) as H0.
  pose proof (rnd_100 rnd Hrnd) as H1.
  destruct (rnd 0) as [z| | |]; cbn in H0; try tauto.
  destruct (rnd 100) as [c| | |]; cbn in H1; try tauto.
  destruct (rnd q) as [y| | |]; cbn in H, H' |- *; try tauto. lra.
Qed.

Lemma rnd_ge_1 (q : Q) :
  (1 <= q)%Q -> rnd q = PInf \/ exists y, rnd q = Fin y /\ (1 <= y)%Q.
Proof.
  intros Hq.
  pose proof (rnd_mono rnd Hrnd 1 q Hq) as H.
  pose proof (rnd_1 rnd Hrnd) as H1.
  destruct (rnd 1) as [z| | |]; cbn in H1; try tauto.
  destruct (rnd q) as [y| | |]; cbn in H; try tauto.
  right. exists y. split; [reflexivity|lra].
Qed.

Lemma rnd_zero (q : Q) : (q == 0)%Q -> is_zero (rnd q).
Proof.
  intros Hq.
  assert (H1 : (0 <= q)%Q) by lra. assert (H2 : (q <= 0)%Q) by lra.
  pose proof (rnd_mono rnd Hrnd 0 q H1) as Ha.
  pose proof (rnd_mono rnd Hrnd q 0 H2) as Hb.
  pose proof (rnd_0 rnd Hrnd) as H0.
  destruct (rnd 0) as [z| | |]; cbn in H0; try tauto.
  destruct (rnd q) as [y| | |]; cbn in Ha, Hb |- *; try tauto. lra.
Qed.

Lemma radd_nonneg (x y : num) :
  nonneg_or_inf x -> nonneg_or_inf y -> nonneg_or_inf (Rounded.radd rnd x y).
Proof.
  destruct x as [a| | |], y as [b| | |]; cbn; try tauto.
  intros Ha Hb. apply rnd_nonneg. lra.
Qed.

Lemma radd_zero (x y : num) :
  is_zero x -> is_zero y -> is_zero (Rounded.radd rnd x y).
Proof.
  destruct x as [a| | |], y as [b| | |]; cbn; try tauto.
  intros Ha Hb. apply rnd_zero. lra.
Qed.

Lemma rsum_nonneg (arr : list num) :
  Forall nonneg_or_inf arr -> nonneg_or_inf (Rounded.rsum rnd arr).
Proof.
  unfold Rounded.rsum. intros H.
  assert (H0 : nonneg_or_inf (Fin 0)) by (cbn; lra).
  revert H0. generalize (Fin 0).
  induction H as [|x arr Hx _ IH]; intros acc Hacc; cbn [fold_left]; [exact Hacc|].
  apply IH, radd_nonneg; assumption.
Qed.

Lemma rsum_zero (arr : list num) :
  Forall is_zero arr -> is_zero (Rounded.rsum rnd arr).
Proof.
  unfold Rounded.rsum. intros H.
  assert (H0 : is_zero (Fin 0)) by (cbn; lra).
  revert H0. generalize (Fin 0).
  induction H as [|x arr Hx _ IH]; intros acc Hacc; cbn [fold_left]; [exact Hacc|].
  apply IH, radd_zero; assumption.
Qed.

(** Dividing by the period. *)
Lemma average_nonneg (s : num) :
  nonneg_or_inf s -> nonneg_or_inf (Rounded.rdiv rnd s (of_nat RSI_PERIOD)).
Proof.
  destruct s as [q| | |]; cbn [nonneg_or_inf]; try tauto; intros Hq.
  change (Rounded.rdiv rnd (Fin q) (of_nat RSI_PERIOD))
    with (rnd (q / inject_Z 14)).
  apply rnd_nonneg. apply Qle_shift_div_l; [reflexivity|lra].
Qed.

Lemma average_zero (s : num) :
  is_zero s -> is_zero (Rounded.rdiv rnd s (of_nat RSI_PERIOD)).
Proof.
  destruct s as [q| | |]; cbn [is_zero]; try tauto; intros Hq.
  change (Rounded.rdiv rnd (Fin q) (of_nat RSI_PERIOD))
    with (rnd (q / inject_Z 14)).
  apply rnd_zero. rewrite Hq. reflexivity.
Qed.

Lemma up_nonneg_or_inf (data : list num) :
  Forall nonneg_or_inf (Rounded.up rnd data).
Proof.
  unfold Rounded.up. apply Forall_map, Forall_forall. intros d _.
  destruct d as [q| | |]; cbn; try lra; try exact I.
  destruct (Qle_bool q 0) eqn:E; cbn; [lra|].
  apply Qle_bool_false in E. lra.
Qed.

Lemma down_nonneg_or_inf (data : list num) :
  Forall nonneg_or_inf (Rounded.down rnd data).
Proof.
  unfold Rounded.down. apply Forall_map, Forall_forall. intros d _.
  destruct d as [q| | |]; cbn; try lra; try exact I.
  destruct (Qle_bool 0 q) eqn:E; cbn; [lra|].
  apply Qle_bool_false in E. lra.
Qed.

Lemma rsi_averages_nonneg (data : list num) :
  nonneg_or_inf (fst (Rounded.rsi_averages rnd data)) /\
  nonneg_or_inf (snd (Rounded.rsi_averages rnd data)).
Proof.
  unfold Rounded.rsi_averages. cbn [fst snd]. split.
  - apply average_nonneg, rsum_nonneg, Forall_slice_last, up_nonneg_or_inf.
  - apply average_nonneg, rsum_nonneg, Forall_slice_last, down_nonneg_or_inf.
Qed.

(** A price that is not below the one before it gives a delta that is not
    negative, whatever the two values are. *)
Lemma delta_not_negative (v prev : num) :
  (v <? prev)%num = false -> (Rounded.rsub rnd v prev <? Fin 0)%num = false.
Proof.
  destruct v as [a| | |], prev as [b| | |]; cbn; try reflexivity; try discriminate.
  intros H. apply negb_false_iff, Qle_bool_iff in H.
  assert (H0 : (0 <= a + - b)%Q) by lra.
  apply rnd_nonneg in H0.
  destruct (rnd (a + - b)) as [y| | |]; cbn in H0 |- *; try tauto.
  apply negb_false_iff, Qle_bool_iff. exact H0.
Qed.

Lemma no_fall_no_loss (data : list num) :
  (RSI_PERIOD + 1 <= length data)%nat -> no_fall data ->
  Forall is_zero (slice_last RSI_PERIOD (Rounded.down rnd data)).
Proof.
  intros Hlen Hnf. unfold slice_last. cbn [RSI_PERIOD Nat.eqb].
  apply (Forall_skipn_nth is_zero _ _ NaN).
  unfold Rounded.down, Rounded.deltas. rewrite length_map, mapi_length.
  intros k Hk.
  rewrite (nth_map_in _ _ k NaN NaN) by (rewrite mapi_length; lia).
  unfold mapi.
  rewrite (nth_mapi_from _ data NaN NaN 0 k) by lia. cbn [Nat.add].
  pose proof (Hnf k Hk) as Hge. unfold RSI_PERIOD in Hlen, Hk.
  destruct (Nat.eqb_spec k 0) as [->|Hk0]; [lia|].
  fold (get data k). rewrite (delta_not_negative _ _ Hge). cbn. lra.
Qed.

(** The branch that divides: neither divisor is zero, and the result is a
    number between 0 and 100 unless both averages are infinite. *)
Lemma rsi_quotient (u d : num) :
  nonneg_or_inf u -> nonneg_or_inf d -> (d === Fin 0)%num = false ->
  (Rounded.radd rnd (Fin 1) (Rounded.rdiv rnd u d) === Fin 0)%num = false /\
  (u = PInf /\ d = PInf ->
   Rounded.rsub rnd (Fin 100)
     (Rounded.rdiv rnd (Fin 100)
        (Rounded.radd rnd (Fin 1) (Rounded.rdiv rnd u d))) = NaN) /\
  (~ (u = PInf /\ d = PInf) ->
   within 0 100
     (Rounded.rsub rnd (Fin 100)
        (Rounded.rdiv rnd (Fin 100)
           (Rounded.radd rnd (Fin 1) (Rounded.rdiv rnd u d))))).
Proof.
  intros Hu Hd Hnz.
  assert (Hrs : (u = PInf /\ d = PInf) \/
                (~ (u = PInf /\ d = PInf) /\
                 nonneg_or_inf (Rounded.rdiv rnd u d))).
  { destruct u as [a| | |], d as [b| | |]; cbn [nonneg_or_inf] in Hu, Hd; try tauto.
    - right. split; [intros [? _]; discriminate|].
      cbn in Hnz. unfold Rounded.rdiv, ndiv. rewrite Hnz. cbn [Rounded.round].
      apply Qeq_bool_false in Hnz.
      apply rnd_nonneg, Qle_shift_div_l; lra.
    - right. split; [intros [? _]; discriminate|].
      cbn. apply rnd_nonneg. lra.
    - right. split; [intros [_ ?]; discriminate|].
      cbn in Hnz. unfold Rounded.rdiv, ndiv. rewrite Hnz.
      apply Qeq_bool_false in Hnz.
      assert (Hb : (0 < b)%Q) by lra.
      apply Qgt_alt in Hb. cbn [nsign sign_mul]. rewrite Hb. exact I. }
  destruct Hrs as [[-> ->] | [Hnot Hrs]].
  - cbn. split; [reflexivity|]. split; [reflexivity|tauto].
  - assert (Ht : Rounded.radd rnd (Fin 1) (Rounded.rdiv rnd u d) = PInf \/
                 exists y, Rounded.radd rnd (Fin 1) (Rounded.rdiv rnd u d) = Fin y /\
                           (1 <= y)%Q).
    { destruct (Rounded.rdiv rnd u d) as [x| | |]; cbn [nonneg_or_inf] in Hrs;
        try tauto.
      cbn. apply rnd_ge_1. lra. }
    destruct Ht as [-> | (y & -> & Hy)].
    + split; [reflexivity|]. split; [tauto|]. intros _.
      change (within 0 100 (Rounded.rsub rnd (Fin 100) (rnd 0))).
      pose proof (rnd_zero 0 ltac:(reflexivity)) as Hz.
      destruct (rnd 0) as [z| | |]; cbn in Hz; try tauto.
      cbn. apply rnd_within_100. lra.
    + split.
      { cbn. apply Qeq_bool_false. lra. }
      split; [tauto|]. intros _.
      assert (Hy0 : Qeq_bool y 0 = false) by (apply Qeq_bool_false; lra).
      unfold Rounded.rdiv at 1. unfold ndiv. rewrite Hy0. cbn [Rounded.round].
      assert (Hw : (0 <= 100 / y <= 100)%Q).
      { split; [apply Qle_shift_div_l; lra | apply Qle_shift_div_r; lra]. }
      apply rnd_within_100 in Hw.
      destruct (rnd (100 / y)) as [w| | |]; cbn in Hw; try tauto.
      cbn. apply rnd_within_100. lra.
Qed.
End RoundingFacts.

(** The deltas of the source are a zero followed by the changes, and the
    trailing [RSI_PERIOD] of them are the changes within the last
    [RSI_PERIOD + 1] prices. *)
Lemma deltas_from (rnd : Q -> num) (rest : list num) :
  forall (pre : list num) (a : num),
    mapi_from
      (fun i v => if (i =? 0)%nat then Fin 0
                  else Rounded.rsub rnd v (get (pre ++ a :: rest) (i - 1)))
      (S (length pre)) rest
    = changes rnd (a :: rest).
Proof.
  induction rest as [|b rest IH]; intros pre a; [reflexivity|].
  cbn [mapi_from changes Nat.eqb]. f_equal.
  - f_equal. unfold get. rewrite Nat.sub_succ, Nat.sub_0_r. apply nth_middle.
  - specialize (IH (pre ++ [a]) b).
    rewrite <- app_assoc, length_app, Nat.add_1_r in IH. exact IH.
Qed.

Lemma deltas_changes (rnd : Q -> num) (a : num) (rest : list num) :
  Rounded.deltas rnd (a :: rest) = Fin 0 :: changes rnd (a :: rest).
Proof.
  unfold Rounded.deltas, mapi. cbn [mapi_from Nat.eqb]. f_equal.
  apply (deltas_from rnd rest [] a).
Qed.

Lemma changes_length (rnd : Q -> num) (data : list num) :
  length (changes rnd data) = (length data - 1)%nat.
Proof.
  induction data as [|a [|b rest] IH]; [reflexivity|reflexivity|].
  cbn [changes length] in *. rewrite IH. lia.
Qed.

Lemma changes_skipn (rnd : Q -> num) (data : list num) :
  forall m, skipn m (changes rnd data) = changes rnd (skipn m data).
Proof.
  induction data as [|a [|b rest] IH]; intros m.
  - now destruct m.
  - destruct m as [|[|m]]; reflexivity.
  - destruct m as [|m]; [reflexivity|].
    cbn [changes skipn]. apply (IH m).
Qed.

Lemma trailing_deltas (rnd : Q -> num) (f : num -> num) (data : list num) :
  (RSI_PERIOD + 1 <= length data)%nat ->
  slice_last RSI_PERIOD (map f (Rounded.deltas rnd data))
  = map f (changes rnd (slice_last (RSI_PERIOD + 1) data)).
Proof.
  intros Hlen. destruct data as [|a rest]; [cbn in Hlen; lia|].
  rewrite deltas_changes. unfold slice_last, RSI_PERIOD in *.
  cbn [Nat.add Nat.eqb]. rewrite length_map. cbn [length] in *.
  rewrite changes_length. cbn [length].
  replace (S (S (length rest) - 1) - 14)%nat with (S (length rest - 14)) by lia.
  cbn [map skipn]. rewrite skipn_map, changes_skipn.
  replace (S (length rest) - 15)%nat with (length rest - 14)%nat by lia.
  reflexivity.
Qed.

Lemma rsi_averages_spec (rnd : Q -> num) (data : list num) :
  (RSI_PERIOD + 1 <= length data)%nat ->
  Rounded.rsi_averages rnd data = (average_gain rnd data, average_loss rnd data).
Proof.
  intros Hlen. unfold Rounded.rsi_averages, Rounded.up, Rounded.down,
    average_gain, average_loss.
  now rewrite (trailing_deltas rnd _ data Hlen), (trailing_deltas rnd _ data Hlen).
Qed.

(** Exact arithmetic is the rounding that changes nothing: with it the
    rounded function is the function of module [Web]. *)
Lemma mapi_from_ext {A B : Type} (f g : nat -> A -> B) (arr : list A) :
  (forall i x, f i x = g i x) -> forall i, mapi_from f i arr = mapi_from g i arr.
Proof.
  intros H. induction arr as [|x arr IH]; intros i; cbn; [reflexivity|].
  now rewrite H, IH.
Qed.

Lemma rsum_exact (arr : list num) : Rounded.rsum Fin arr = sum arr.
Proof.
  unfold Rounded.rsum, sum. generalize (Fin 0).
  induction arr as [|x arr IH]; intros acc; cbn [fold_left]; [reflexivity|].
  unfold Rounded.radd at 2. now rewrite round_exact, IH.
Qed.

Lemma rsi_averages_exact (data : list num) :
  Rounded.rsi_averages Fin data = Web.rsi_averages data.
Proof.
  unfold Rounded.rsi_averages, Web.rsi_averages, Rounded.up, Rounded.down,
    Rounded.deltas, Rounded.rdiv, mapi.
  rewrite !round_exact, !rsum_exact.
  rewrite (mapi_from_ext
             (fun i v => if (i =? 0)%nat then Fin 0
                         else Rounded.rsub Fin v (get data (i - 1)))
             (fun i v => if (i =? 0)%nat then Fin 0
                         else (v - get data (i - 1))%num)).
  - reflexivity.
  - intros i x. destruct (i =? 0)%nat; [reflexivity|].
    unfold Rounded.rsub. apply round_exact.
Qed.

Lemma calculate_rsi_exact (data : list num) :
  Rounded.calculate_rsi Fin data = Web.calculate_rsi data.
Proof.
  unfold Rounded.calculate_rsi, Web.calculate_rsi.
  rewrite rsi_averages_exact.
  destruct (Web.rsi_averages data) as [u d].
  unfold Rounded.rsub, Rounded.rdiv, Rounded.radd.
  now rewrite !round_exact.
Qed.

(** C4 (as amended): under every rounding of the arithmetic, on every list
    of at least 15 numbers, [calculate_rsi] (the same function in both
    files, and with exact arithmetic the function of module [Web]) returns a
    number; the two averages it computes are the mean gain and the mean
    loss of the 14 changes within the last 15 prices, each non-negative,
    finite or +Infinity; when no price of the last 14 is below the price
    before it the average loss is zero; when the average loss is zero the
    result is exactly 100, and otherwise the divisor 1 + avgGain/avgLoss of
    100/(1 + avgGain/avgLoss) is not zero; the result is NaN when both
    averages are +Infinity and lies in [0, 100] in every other case. *)
Theorem rsi_range_C4 (rnd : Q -> num) (data : list num) :
  rounding rnd ->
  (RSI_PERIOD + 1 <= length data)%nat ->
  Part000.calculate_rsi data = Web.calculate_rsi data /\
  Web.calculate_rsi data = Rounded.calculate_rsi Fin data /\
  exists avgGain avgLoss r : num,
    Rounded.rsi_averages rnd data = (avgGain, avgLoss) /\
    avgGain = average_gain rnd data /\ avgLoss = average_loss rnd data /\
    Rounded.calculate_rsi rnd data = Some r /\
    nonneg_or_inf avgGain /\ nonneg_or_inf avgLoss /\
    (no_fall data -> is_zero avgLoss) /\
    ((avgLoss === Fin 0)%num = true -> r = Fin 100) /\
    ((avgLoss === Fin 0)%num = false ->
     (Rounded.radd rnd (Fin 1) (Rounded.rdiv rnd avgGain avgLoss) === Fin 0)%num
     = false /\
     r = Rounded.rsub rnd (Fin 100)
           (Rounded.rdiv rnd (Fin 100)
              (Rounded.radd rnd (Fin 1) (Rounded.rdiv rnd avgGain avgLoss)))) /\
    (avgGain = PInf /\ avgLoss = PInf -> r = NaN) /\
    (~ (avgGain = PInf /\ avgLoss = PInf) -> within 0 100 r).
Proof.
  intros Hrnd Hlen.
  split; [reflexivity|]. split; [symmetry; apply calculate_rsi_exact|].
  destruct (rsi_averages_nonneg rnd Hrnd data) as [Hu Hd].
  pose proof (no_fall_no_loss rnd Hrnd data Hlen) as Hnf.
  unfold Rounded.calculate_rsi.
  destruct (Nat.ltb_spec (length data) (RSI_PERIOD + 1)) as [Hlt|_]; [lia|].
  assert (Hdown : no_fall data -> is_zero (snd (Rounded.rsi_averages rnd data))).
  { intros H. unfold Rounded.rsi_averages. cbn [snd].
    apply average_zero, rsum_zero, Hnf; assumption. }
  pose proof (rsi_averages_spec rnd data Hlen) as Hspec.
  destruct (Rounded.rsi_averages rnd data) as [u d]. cbn [fst snd] in Hu, Hd, Hdown.
  injection Hspec as Hgain Hloss.
  destruct (d === Fin 0)%num eqn:Ez.
  - exists u, d, (Fin 100).
    split; [reflexivity|]. split; [exact Hgain|]. split; [exact Hloss|].
    split; [reflexivity|].
    split; [exact Hu|]. split; [exact Hd|]. split; [exact Hdown|].
    split; [reflexivity|]. split; [intros H; rewrite Ez in H; discriminate H|].
    split.
    + intros [_ ->]. discriminate Ez.
    + intros _. cbn. lra.
  - destruct (rsi_quotient rnd Hrnd u d Hu Hd Ez) as (Ht & Hnan & Hin).
    eexists u, d, _.
    split; [reflexivity|]. split; [exact Hgain|]. split; [exact Hloss|].
    split; [reflexivity|].
    split; [exact Hu|]. split; [exact Hd|]. split; [exact Hdown|].
    split; [intros H; rewrite Ez in H; discriminate H|].
    split; [intros _; split; [exact Ht|reflexivity]|].
    split; [exact Hnan|exact Hin].
Qed.

Lemma rsi_range_C4_witness :
  rounding overflowing /\
  (RSI_PERIOD + 1 <= length alternating_prices)%nat /\
  Part000.calculate_rsi alternating_prices = Web.calculate_rsi alternating_prices /\
  Web.calculate_rsi alternating_prices
  = Rounded.calculate_rsi Fin alternating_prices /\
  exists avgGain avgLoss r : num,
    Rounded.rsi_averages overflowing alternating_prices = (avgGain, avgLoss) /\
    avgGain = average_gain overflowing alternating_prices /\
    avgLoss = average_loss overflowing alternating_prices /\
    Rounded.calculate_rsi overflowing alternating_prices = Some r /\
    nonneg_or_inf avgGain /\ nonneg_or_inf avgLoss /\
    (no_fall alternating_prices -> is_zero avgLoss) /\
    ((avgLoss === Fin 0)%num = true -> r = Fin 100) /\
    ((avgLoss === Fin 0)%num = false ->
     (Rounded.radd overflowing (Fin 1) (Rounded.rdiv overflowing avgGain avgLoss)
      === Fin 0)%num = false /\
     r = Rounded.rsub overflowing (Fin 100)
           (Rounded.rdiv overflowing (Fin 100)
              (Rounded.radd overflowing (Fin 1)
                 (Rounded.rdiv overflowing avgGain avgLoss)))) /\
    (avgGain = PInf /\ avgLoss = PInf -> r = NaN) /\
    (~ (avgGain = PInf /\ avgLoss = PInf) -> within 0 100 r).
Proof.
  split; [exact overflowing_rounding|].
  split; [cbn; lia|].
  exact (rsi_range_C4 overflowing alternating_prices overflowing_rounding
           ltac:(cbn; lia)).
Defined.

(** Against C4 as first stated (a value in [0, 100] on every list of 15
    prices): on fifteen finite doubles that alternate between 1 and 1e308
    both window sums overflow and the binary64 computation returns NaN, as
    does the rounded function under the rounding that only overflows; and a
    single Infinity among the prices gives NaN in exact arithmetic too. *)
Lemma rsi_not_in_range :
  (RSI_PERIOD + 1 <= length Binary64.overflow_prices)%nat /\
  forallb PrimFloat.is_finite Binary64.overflow_prices = true /\
  option_map PrimFloat.is_nan (Binary64.calculate_rsi Binary64.overflow_prices)
  = Some true /\
  Rounded.calculate_rsi overflowing alternating_prices = Some NaN /\
  (RSI_PERIOD + 1 <= length infinite_price)%nat /\
  Web.calculate_rsi infinite_price = Some NaN /\
  Part000.calculate_rsi infinite_price = Some NaN.
Proof.
  split; [cbn; lia|].
  split; [vm_compute; reflexivity|].
  split; [vm_compute; reflexivity|].
  split; [vm_compute; reflexivity|].
  split; [cbn; lia|].
  split; vm_compute; reflexivity.
Qed.

(* ================================================================== *)
(** ** Trailing windows *)

Lemma slice_last_recent {A : Type} (n : nat) (older recent : list A) :
  (1 <= n)%nat -> length recent = n -> slice_last n (older ++ recent) = recent.
Proof.
  intros Hn Hlen. unfold slice_last.
  destruct (Nat.eqb_spec n 0) as [->|_]; [lia|].
  rewrite length_app, Hlen.
  replace (length older + n - n)%nat with (length older + 0)%nat by lia.
  now rewrite skipn_app, Nat.add_0_r, skipn_all, Nat.sub_diag.
Qed.

Lemma slice_last_whole {A : Type} (n : nat) (recent : list A) :
  (1 <= n)%nat -> length recent = n -> slice_last n recent = recent.
Proof. exact (slice_last_recent n [] recent). Qed.

Lemma average_recent (rnd : Q -> num) (older recent : list num) :
  length recent = (RSI_PERIOD + 1)%nat ->
  average_gain rnd (older ++ recent) = average_gain rnd recent /\
  average_loss rnd (older ++ recent) = average_loss rnd recent.
Proof.
  intros Hlen. unfold average_gain, average_loss.
  rewrite (slice_last_recent _ older recent) by (cbn; lia || exact Hlen).
  rewrite (slice_last_whole _ recent) by (cbn; lia || exact Hlen).
  split; reflexivity.
Qed.

Lemma rounded_rsi_recent (rnd : Q -> num) (older recent : list num) :
  length recent = (RSI_PERIOD + 1)%nat ->
  Rounded.calculate_rsi rnd (older ++ recent) = Rounded.calculate_rsi rnd recent.
Proof.
  intros Hlen. unfold Rounded.calculate_rsi.
  rewrite (rsi_averages_spec rnd (older ++ recent))
    by (rewrite length_app; lia).
  rewrite (rsi_averages_spec rnd recent) by lia.
  destruct (average_recent rnd older recent Hlen) as [-> ->].
  rewrite length_app, Hlen.
  destruct (Nat.ltb_spec (length older + (RSI_PERIOD + 1)) (RSI_PERIOD + 1));
    [lia|].
  now rewrite Nat.ltb_irrefl.
Qed.

(** X9: the moving average and the RSI read their trailing window only:
    [calculate_sma(data, period)] is unchanged when prices older than the
    last [period] are dropped, and [calculate_rsi] is unchanged when prices
    older than the last 15 are dropped, under every rounding of the
    arithmetic and in both files. *)
Theorem trailing_window_X9 (older recent : list num) :
  (forall period,
      (1 <= period)%nat -> length recent = period ->
      Web.calculate_sma (older ++ recent) period = Web.calculate_sma recent period /\
      Part000.calculate_sma (older ++ recent) period
      = Part000.calculate_sma recent period) /\
  (length recent = (RSI_PERIOD + 1)%nat ->
   Web.calculate_rsi (older ++ recent) = Web.calculate_rsi recent /\
   Part000.calculate_rsi (older ++ recent) = Part000.calculate_rsi recent /\
   forall rnd,
     Rounded.calculate_rsi rnd (older ++ recent) = Rounded.calculate_rsi rnd recent).
Proof.
  split.
  - intros period Hp Hlen.
    assert (E : Web.calculate_sma (older ++ recent) period
                = Web.calculate_sma recent period).
    { unfold Web.calculate_sma.
      rewrite (slice_last_recent period older recent Hp Hlen).
      rewrite (slice_last_whole period recent Hp Hlen).
      rewrite length_app, Hlen.
      destruct (Nat.ltb_spec (length older + period) period); [lia|].
      now rewrite Nat.ltb_irrefl. }
    split; exact E.
  - intros Hlen.
    assert (E : Web.calculate_rsi (older ++ recent) = Web.calculate_rsi recent).
    { rewrite <- !calculate_rsi_exact. apply rounded_rsi_recent, Hlen. }
    split; [exact E|]. split; [exact E|].
    intros rnd. apply rounded_rsi_recent, Hlen.
Qed.

(* ================================================================== *)
(** ** VWAP when every volume is 1 *)

Lemma num_eq_refl (x : num) : num_eq x x.
Proof. destruct x; cbn; [reflexivity|exact I..]. Qed.

Lemma num_eq_trans (x y z : num) : num_eq x y -> num_eq y z -> num_eq x z.
Proof.
  destruct x, y, z; cbn; try tauto. intros H1 H2. now rewrite H1.
Qed.

Lemma nadd_num_eq (a a' b b' : num) :
  num_eq a a' -> num_eq b b' -> num_eq (a + b)%num (a' + b')%num.
Proof.
  destruct a, a', b, b'; cbn; try tauto. intros H1 H2. now rewrite H1, H2.
Qed.

Lemma nmul_one (x : num) : num_eq (x * Fin 1)%num x.
Proof. destruct x; cbn; [ring|exact I..]. Qed.

Lemma ndiv_num_eq (a a' b b' : num) :
  num_eq a a' -> num_eq b b' -> num_eq (a / b)%num (a' / b')%num.
Proof.
  destruct a as [x| | |], a' as [x'| | |], b as [y| | |], b' as [y'| | |];
    cbn [num_eq]; try tauto; intros H1 H2; unfold ndiv, nsign.
  - assert (E : Qeq_bool y 0 = Qeq_bool y' 0).
    { destruct (Qeq_bool y' 0) eqn:E'.
      - apply Qeq_bool_iff. apply Qeq_bool_iff in E'. now rewrite H2.
      - apply Qeq_bool_false. apply Qeq_bool_false in E'. now rewrite H2. }
    rewrite E. destruct (Qeq_bool y' 0).
    + rewrite H1. apply num_eq_refl.
    + cbn. now rewrite H1, H2.
  - cbn. reflexivity.
  - cbn. reflexivity.
  - assert (E : Qeq_bool y 0 = Qeq_bool y' 0).
    { destruct (Qeq_bool y' 0) eqn:E'.
      - apply Qeq_bool_iff. apply Qeq_bool_iff in E'. now rewrite H2.
      - apply Qeq_bool_false. apply Qeq_bool_false in E'. now rewrite H2. }
    rewrite E, H2. apply num_eq_refl.
  - assert (E : Qeq_bool y 0 = Qeq_bool y' 0).
    { destruct (Qeq_bool y' 0) eqn:E'.
      - apply Qeq_bool_iff. apply Qeq_bool_iff in E'. now rewrite H2.
      - apply Qeq_bool_false. apply Qeq_bool_false in E'. now rewrite H2. }
    rewrite E, H2. apply num_eq_refl.
Qed.

(** The loop of [calculate_vwap] over unit volumes: the first accumulator
    is the running sum of the prices, the second counts the ticks. *)
Lemma vwap_loop_unit (rest : list num) :
  forall (pre : list num) (more : nat) (a a' : num) (c : Q),
    num_eq a a' ->
    (length rest <= more)%nat ->
    exists A C,
      fold_left
        (fun '(cumPV, cumV) i =>
           ((cumPV + get (pre ++ rest) i
                     * get (repeat (Fin 1) (length pre + more)) i)%num,
            (cumV + get (repeat (Fin 1) (length pre + more)) i)%num))
        (seq (length pre) (length rest)) (a, Fin c)
      = (A, Fin C) /\
      num_eq A (fold_left nadd rest a') /\
      (C == c + inject_Z (Z.of_nat (length rest)))%Q.
Proof.
  induction rest as [|x rest IH]; intros pre more a a' c Ha Hm.
  - exists a, c. cbn. split; [reflexivity|]. split; [exact Ha|ring].
  - cbn [length seq fold_left] in *.
    assert (Hp : get (pre ++ x :: rest) (length pre) = x)
      by (unfold get; apply nth_middle).
    assert (Hv : get (repeat (Fin 1) (length pre + more)) (length pre) = Fin 1).
    { unfold get. apply nth_repeat_lt. lia. }
    rewrite Hp, Hv.
    destruct (IH (pre ++ [x]) (more - 1)%nat (a + x * Fin 1)%num (a' + x)%num
                 (c + 1)%Q) as (A & C & E & HA & HC).
    + apply nadd_num_eq; [exact Ha|apply nmul_one].
    + lia.
    + rewrite <- app_assoc, length_app in E. cbn [app length] in E.
      replace (length pre + 1 + (more - 1))%nat with (length pre + more)%nat in E
        by lia.
      rewrite Nat.add_1_r in E.
      exists A, C. split; [exact E|]. split; [exact HA|].
      rewrite HC, Nat2Z.inj_succ, <- Z.add_1_l, inject_Z_plus. ring.
Qed.

(** X6: when every volume is 1 (the value recorded for a trade without a
    volume), the VWAP of a buffer of at least two prices is the plain mean
    of all its prices: [calculate_vwap(p, [1, ..., 1])] and
    [calculate_sma(p, p.length)] return the same number.  Both files. *)
Theorem vwap_unit_volumes_X6 (p : list num) :
  (2 <= length p)%nat ->
  Part000.calculate_vwap p (repeat (Fin 1) (length p))
  = Web.calculate_vwap p (repeat (Fin 1) (length p)) /\
  Part000.calculate_sma p (length p) = Web.calculate_sma p (length p) /\
  exists w m,
    Web.calculate_vwap p (repeat (Fin 1) (length p)) = Some w /\
    Web.calculate_sma p (length p) = Some m /\
    num_eq w m.
Proof.
  intros Hlen. split; [reflexivity|]. split; [reflexivity|].
  unfold Web.calculate_vwap, Web.calculate_sma, Web.vwap_loop.
  rewrite repeat_length, Nat.eqb_refl, Nat.ltb_irrefl.
  destruct (Nat.ltb_spec (length p) 2) as [Hlt|_]; [lia|]. cbn [negb orb].
  destruct (vwap_loop_unit p [] (length p) (Fin 0) (Fin 0) 0 (num_eq_refl _)
              (le_n _)) as (A & C & E & HA & HC).
  cbn [app length Nat.add] in E. rewrite E.
  exists (A / Fin C)%num, (sum (slice_last (length p) p) / of_nat (length p))%num.
  split; [reflexivity|]. split; [reflexivity|].
  apply ndiv_num_eq.
  - unfold slice_last. destruct (length p =? 0)%nat; [exact HA|].
    now rewrite Nat.sub_diag.
  - cbn. rewrite HC. ring.
Qed.

Lemma vwap_unit_volumes_X6_witness :
  (2 <= length [Fin 10; Fin 11; Fin 12])%nat /\
  Part000.calculate_vwap [Fin 10; Fin 11; Fin 12]
    (repeat (Fin 1) (length [Fin 10; Fin 11; Fin 12]))
  = Web.calculate_vwap [Fin 10; Fin 11; Fin 12]
      (repeat (Fin 1) (length [Fin 10; Fin 11; Fin 12])) /\
  Part000.calculate_sma [Fin 10; Fin 11; Fin 12] (length [Fin 10; Fin 11; Fin 12])
  = Web.calculate_sma [Fin 10; Fin 11; Fin 12] (length [Fin 10; Fin 11; Fin 12]) /\
  exists w m,
    Web.calculate_vwap [Fin 10; Fin 11; Fin 12]
      (repeat (Fin 1) (length [Fin 10; Fin 11; Fin 12])) = Some w /\
    Web.calculate_sma [Fin 10; Fin 11; Fin 12] (length [Fin 10; Fin 11; Fin 12])
    = Some m /\
    num_eq w m.
Proof.
  split; [cbn; lia|].
  exact (vwap_unit_volumes_X6 [Fin 10; Fin 11; Fin 12] ltac:(cbn; lia)).
Defined.

(* ================================================================== *)
(** ** Sample buffer *)

(** The last [n] elements of an array. *)
Lemma slice_last_skipn {A : Type} (n : nat) (arr : list A) :
  (0 < n)%nat -> slice_last n arr = skipn (length arr - n) arr.
Proof.
  intros Hn. unfold slice_last. destruct (Nat.eqb_spec n 0); [lia|reflexivity].
Qed.

Lemma skipn_last_twice {A : Type} (n m : nat) (arr : list A) :
  (n <= m)%nat ->
  let kept := skipn (length arr - m) arr in
  skipn (length kept - n) kept = skipn (length arr - n) arr.
Proof.
  intros Hnm kept. unfold kept. rewrite skipn_skipn, length_skipn.
  f_equal. lia.
Qed.

Lemma skipn_last_snoc {A : Type} (n : nat) (arr : list A) (x : A) :
  skipn (length (arr ++ [x]) - S n) (arr ++ [x])
  = skipn (length arr - n) arr ++ [x].
Proof.
  rewrite length_app. cbn [length].
  replace (length arr + 1 - S n)%nat with (length arr - n)%nat by lia.
  rewrite skipn_app.
  replace (length arr - n - length arr)%nat with 0%nat by lia.
  reflexivity.
Qed.

(** Pushing the elements [xs] one by one through [[...prev.slice(-99), x]]
    keeps the last 100 of everything seen. *)
Lemma push_all_last100 {A : Type} (xs : list A) :
  forall acc,
    fold_left (fun prev x => slice_last 99 prev ++ [x]) xs
              (skipn (length acc - 100) acc)
    = skipn (length (acc ++ xs) - 100) (acc ++ xs).
Proof.
  induction xs as [|x xs IH]; intros acc; cbn [fold_left].
  - now rewrite app_nil_r.
  - rewrite slice_last_skipn by lia.
    rewrite (skipn_last_twice 99 100 acc) by lia.
    rewrite <- (skipn_last_snoc 99 acc x).
    rewrite IH, <- app_assoc. reflexivity.
Qed.

Lemma feed_prices (ticks : list (num * num)) :
  forall st,
    prices (feed ticks st)
    = fold_left (fun prev x => slice_last 99 prev ++ [x]) (map fst ticks) (prices st).
Proof.
  induction ticks as [|t ticks IH]; intros st; cbn; [reflexivity|].
  unfold feed in IH. now rewrite IH.
Qed.

Lemma feed_volumes (ticks : list (num * num)) :
  forall st,
    volumes (feed ticks st)
    = fold_left (fun prev x => slice_last 99 prev ++ [x]) (map snd ticks) (volumes st).
Proof.
  induction ticks as [|t ticks IH]; intros st; cbn; [reflexivity|].
  unfold feed in IH. now rewrite IH.
Qed.

Lemma feed_empty (ticks : list (num * num)) :
  prices (feed ticks empty_buffers) = skipn (length ticks - 100) (map fst ticks) /\
  volumes (feed ticks empty_buffers) = skipn (length ticks - 100) (map snd ticks).
Proof.
  rewrite feed_prices, feed_volumes. cbn [prices volumes empty_buffers].
  split.
  - pose proof (push_all_last100 (map fst ticks) []) as H.
    cbn [app length Nat.sub skipn] in H. now rewrite H, length_map.
  - pose proof (push_all_last100 (map snd ticks) []) as H.
    cbn [app length Nat.sub skipn] in H. now rewrite H, length_map.
Qed.

Lemma push_length {A : Type} (prev : list A) (x : A) :
  (length (slice_last 99 prev ++ [x]) <= 100)%nat.
Proof.
  rewrite length_app, slice_last_length by lia. cbn [length]. lia.
Qed.

Lemma push_full {A : Type} (prev : list A) (x : A) :
  length prev = 100%nat -> slice_last 99 prev ++ [x] = tl prev ++ [x].
Proof.
  intros H. rewrite slice_last_skipn by lia. rewrite H.
  destruct prev; [discriminate|reflexivity].
Qed.

(** A trade message accepted by the handler of part_000 (non-zero price) is
    recorded exactly as [onTrade] records it. *)
Lemma part000_onmessage_onTrade (st : buffers) (t : trade) (rest : list trade) :
  truthy (Fin (p t)) = true ->
  Part000.onmessage st (Trade (t :: rest))
  = Web.onTrade st (Fin (p t)) (or_one (v t)).
Proof.
  intros H. unfold Part000.onmessage. cbn [nth_error option_map].
  rewrite H. reflexivity.
Qed.

(** C6: the price and volume buffers hold at most 100 elements each; an
    append to a full buffer drops the oldest element and keeps the order;
    after any sequence of ticks the buffers are the last 100 ticks in input
    order, so after 150 ticks the length is exactly 100 and the oldest
    retained tick is input number 50 (0-indexed).  Both handlers record an
    accepted trade through this same append. *)
Theorem buffer_fifo_C6 :
  (forall st price volume,
      (length (prices (Web.onTrade st price volume)) <= 100)%nat /\
      (length (volumes (Web.onTrade st price volume)) <= 100)%nat) /\
  (forall st price volume,
      length (prices st) = 100%nat -> length (volumes st) = 100%nat ->
      prices (Web.onTrade st price volume) = tl (prices st) ++ [price] /\
      volumes (Web.onTrade st price volume) = tl (volumes st) ++ [volume]) /\
  (forall ticks,
      prices (feed ticks empty_buffers)
      = skipn (length ticks - 100) (map fst ticks) /\
      volumes (feed ticks empty_buffers)
      = skipn (length ticks - 100) (map snd ticks)) /\
  (forall ticks,
      length ticks = 150%nat ->
      length (prices (feed ticks empty_buffers)) = 100%nat /\
      length (volumes (feed ticks empty_buffers)) = 100%nat /\
      nth_error (prices (feed ticks empty_buffers)) 0
      = nth_error (map fst ticks) 50 /\
      nth_error (volumes (feed ticks empty_buffers)) 0
      = nth_error (map snd ticks) 50) /\
  (forall st t rest,
      Web.onmessage st (Trade (t :: rest))
      = Web.onTrade st (Fin (p t)) (or_one (v t)) /\
      (truthy (Fin (p t)) = true ->
       Part000.onmessage st (Trade (t :: rest))
       = Web.onTrade st (Fin (p t)) (or_one (v t)))).
Proof.
  split; [|split; [|split; [|split]]].
  - intros st price volume. cbn [Web.onTrade prices volumes].
    split; apply push_length.
  - intros st price volume Hp Hv. cbn [Web.onTrade prices volumes].
    split; apply push_full; assumption.
  - exact feed_empty.
  - intros ticks Hlen. destruct (feed_empty ticks) as [Ep Ev].
    rewrite Ep, Ev, Hlen. change (150 - 100)%nat with 50%nat.
    rewrite !length_skipn, !length_map, Hlen.
    rewrite !nth_error_skipn, !Nat.add_0_r. auto.
  - intros st t rest. split; [reflexivity|].
    apply part000_onmessage_onTrade.
Qed.

Lemma buffer_fifo_C6_witness :
  length ticks150 = 150%nat /\
  length (prices (feed ticks150 empty_buffers)) = 100%nat /\
  nth_error (prices (feed ticks150 empty_buffers)) 0 = Some (of_nat 50).
Proof.
  split; [reflexivity|].
  destruct buffer_fifo_C6 as (_ & _ & _ & H & _).
  destruct (H ticks150 eq_refl) as (Hl & _ & Hp & _).
  split; [exact Hl|]. rewrite Hp. reflexivity.
Defined.

(* ================================================================== *)
(** ** Recorded volume *)

(** [volume || 1] is never falsy. *)
Lemma or_one_truthy (volume : option Q) : truthy (or_one volume) = true.
Proof.
  destruct volume as [q|]; cbn [or_one]; [|reflexivity].
  destruct (truthy (Fin q)) eqn:E; [exact E|reflexivity].
Qed.

Lemma or_one_zero (q : Q) : (q == 0)%Q -> or_one (Some q) = Fin 1.
Proof.
  intros H. cbn. apply Qeq_bool_iff in H. now rewrite H.
Qed.

Lemma or_one_nonzero (q : Q) : ~ (q == 0)%Q -> or_one (Some q) = Fin q.
Proof.
  intros H. cbn. apply Qeq_bool_false in H. now rewrite H.
Qed.

Lemma or_one_positive (volume : option Q) :
  (or_one volume >? Fin 0)%num = true <->
  (volume = None \/ exists q, volume = Some q /\ (0 <= q)%Q).
Proof.
  destruct volume as [q|].
  - destruct (Qeq_dec q 0) as [Hz | Hnz].
    + rewrite (or_one_zero q Hz). split.
      * intros _. right. exists q. split; [reflexivity|lra].
      * intros _. reflexivity.
    + rewrite (or_one_nonzero q Hnz), ngt_fin. split.
      * intros H. right. exists q. split; [reflexivity|lra].
      * intros [H | (q' & E & H)]; [discriminate|]. injection E as <-. lra.
  - split; [now left | reflexivity].
Qed.

(** C5 (amended): for every trade message the handler accepts, the recorded
    volume is [v || 1]: it is 1 when the source volume is omitted or zero
    and the source volume itself otherwise, so it is never zero, and it is
    strictly positive exactly when the source volume is omitted or not
    negative. *)
Theorem recorded_volume_C5 (st : buffers) (t : trade) (rest : list trade) :
  at_last (volumes (Web.onmessage st (Trade (t :: rest)))) = Some (or_one (v t)) /\
  (truthy (Fin (p t)) = true ->
   at_last (volumes (Part000.onmessage st (Trade (t :: rest))))
   = Some (or_one (v t))) /\
  truthy (or_one (v t)) = true /\
  (v t = None -> or_one (v t) = Fin 1) /\
  (forall q, v t = Some q -> (q == 0)%Q -> or_one (v t) = Fin 1) /\
  (forall q, v t = Some q -> ~ (q == 0)%Q -> or_one (v t) = Fin q) /\
  ((or_one (v t) >? Fin 0)%num = true <->
   (v t = None \/ exists q, v t = Some q /\ (0 <= q)%Q)).
Proof.
  split; [|split; [|split; [|split; [|split; [|split]]]]].
  - cbn [Web.onmessage Web.onTrade volumes]. apply at_last_app.
  - intros H. rewrite (part000_onmessage_onTrade st t rest H).
    cbn [Web.onTrade volumes]. apply at_last_app.
  - apply or_one_truthy.
  - intros ->. reflexivity.
  - intros q -> Hz. apply or_one_zero, Hz.
  - intros q -> Hnz. apply or_one_nonzero, Hnz.
  - apply or_one_positive.
Qed.

(** C5 as stated fails: a trade message whose source volume is -5 is
    accepted by both handlers and -5, which is not positive, is recorded. *)
Lemma negative_volume_recorded :
  at_last (volumes (Web.onmessage empty_buffers
                      (Trade [{| p := 10; v := Some (-5)%Q |}])))
  = Some (Fin (-5)) /\
  at_last (volumes (Part000.onmessage empty_buffers
                      (Trade [{| p := 10; v := Some (-5)%Q |}])))
  = Some (Fin (-5)) /\
  (Fin (-5) >? Fin 0)%num = false.
Proof. repeat split. Qed.

(* ================================================================== *)
(** ** Reconnection backoff *)

Lemma reconnect_delay_le (retry : nat) : (Web.reconnect_delay retry <= 30000)%Z.
Proof. unfold Web.reconnect_delay. apply Z.le_min_l. Qed.

(** One failed attempt on a mounted hook: the close schedules the delay for
    the current count, the timer then increments the count and reconnects. *)
Lemma failed_attempt_step (c : Web.conn) :
  Web.mounted c = true ->
  let c' := Web.ws_step (Web.ws_step c Web.EvClose) Web.EvTimer in
  Web.mounted c' = true /\
  Web.retryCount c' = (Web.retryCount c + 1)%nat /\
  Web.scheduled c' = Web.scheduled c ++ [Web.reconnect_delay (Web.retryCount c)].
Proof.
  destruct c as [m s r t sch]. cbn [Web.mounted]. intros ->.
  repeat split.
Qed.

Lemma failed_attempts_scheduled (k : nat) :
  forall c,
    Web.mounted c = true ->
    Web.scheduled (Web.ws_run c (failed_attempts k))
    = Web.scheduled c ++ map Web.reconnect_delay (seq (Web.retryCount c) k).
Proof.
  induction k as [|k IH]; intros c Hm.
  - cbn. now rewrite app_nil_r.
  - destruct (failed_attempt_step c Hm) as (Hm' & Hr & Hs).
    change (failed_attempts (S k))
      with ([Web.EvClose; Web.EvTimer] ++ failed_attempts k).
    unfold Web.ws_run. rewrite fold_left_app. cbn [fold_left].
    fold (Web.ws_run (Web.ws_step (Web.ws_step c Web.EvClose) Web.EvTimer)
                     (failed_attempts k)).
    rewrite (IH _ Hm'), Hs, Hr, <- app_assoc. cbn [map seq app].
    now rewrite Nat.add_1_r.
Qed.

(** *** The hook inside the component *)

Lemma component_inv_init : component_inv Web.component_init.
Proof.
  constructor; cbn; try reflexivity; try discriminate. constructor.
Qed.

Lemma socket_handler_inv (h : Web.component) (g : nat) (e : Web.ws_event) :
  e = Web.EvOpen \/ e = Web.EvError \/ e = Web.EvClose ->
  component_inv h -> component_inv (Web.socket_handler h g e).
Proof.
  intros He [Hr Hm Hd Ht Hs].
  destruct h as [[m s r t sch] eff pend live n].
  cbn [Web.hook Web.retryCount Web.mounted Web.scheduled Web.timer_live
       Web.render_pending Web.st_status] in *.
  subst r m live.
  unfold Web.socket_handler.
  cbn [Web.hook Web.effect Web.render_pending Web.timer_live Web.sockets
       Web.set_mounted Web.mounted Web.st_status Web.retryCount Web.timeoutRef
       Web.scheduled].
  destruct He as [-> | [-> | ->]].
  - constructor; cbn; try reflexivity; try assumption.
    destruct pend; cbn; [discriminate|].
    rewrite (Hs eq_refl). cbn. discriminate.
  - constructor; cbn; try reflexivity; try assumption.
    destruct pend; cbn; [discriminate|].
    rewrite (Hs eq_refl). cbn. discriminate.
  - destruct (g =? eff)%nat; cbn.
    + constructor; cbn; try reflexivity.
      * apply Forall_app. split; [assumption|]. now constructor.
      * destruct pend; cbn; [reflexivity|]. now rewrite (Hs eq_refl).
      * destruct pend; cbn; [discriminate|].
        rewrite (Hs eq_refl). cbn. discriminate.
    + constructor; cbn; try reflexivity; try assumption.
      destruct pend; cbn; [discriminate|].
      rewrite (Hs eq_refl). cbn. discriminate.
Qed.

Lemma component_inv_step (h : Web.component) (e : Web.component_event) :
  component_inv h -> component_inv (Web.component_step h e).
Proof.
  intros Hi. destruct e as [g|g|g|g| |]; cbn [Web.component_step].
  - apply socket_handler_inv; auto.
  - apply socket_handler_inv; auto.
  - apply socket_handler_inv; auto.
  - destruct Hi as [Hr Hm Hd Ht Hs]. constructor; cbn; try assumption. discriminate.
  - destruct (Web.timeoutRef (Web.hook h)); [|exact Hi].
    rewrite (inv_timer h Hi). exact Hi.
  - destruct Hi as [Hr Hm Hd Ht Hs].
    destruct h as [[m s r t sch] eff pend live n]. cbn in *.
    constructor; cbn; try reflexivity; try assumption.
Qed.

Lemma component_inv_run (es : list Web.component_event) :
  forall h, component_inv h -> component_inv (Web.component_run h es).
Proof.
  induction es as [|e es IH]; intros h Hi; [exact Hi|].
  apply IH, component_inv_step, Hi.
Qed.

(** Sockets are created by renders only: no timer callback ever runs. *)
Lemma component_step_sockets (h : Web.component) (e : Web.component_event) :
  component_inv h ->
  Web.sockets (Web.component_step h e)
  = (Web.sockets h + renders [e])%nat.
Proof.
  intros Hi. destruct e as [g|g|g|g| |]; cbn; try lia.
  destruct (Web.timeoutRef (Web.hook h)); [|lia].
  rewrite (inv_timer h Hi). lia.
Qed.

Lemma component_run_sockets (es : list Web.component_event) :
  forall h, component_inv h ->
            Web.sockets (Web.component_run h es) = (Web.sockets h + renders es)%nat.
Proof.
  induction es as [|e es IH]; intros h Hi; [cbn; lia|].
  change (Web.component_run h (e :: es))
    with (Web.component_run (Web.component_step h e) es).
  rewrite (IH _ (component_inv_step h e Hi)), (component_step_sockets h e Hi).
  change (e :: es) with ([e] ++ es).
  unfold renders. rewrite filter_app, length_app. lia.
Qed.


(* ================================================================== *)
(** ** The two implementations agree *)

Lemma fold_left_pointwise {A B : Type} (f g : A -> B -> A) (l : list B) :
  (forall a b, f a b = g a b) ->
  forall a, fold_left f l a = fold_left g l a.
Proof.
  intros H. induction l as [|b l IH]; intros a; cbn; [reflexivity|].
  now rewrite H, IH.
Qed.

Lemma sim_step_same (prices volumes : list num) (st : sim_state) (i : nat) :
  Part000.sim_step prices volumes st i = Web.sim_step prices volumes st i.
Proof.
  unfold Part000.sim_step, Web.sim_step.
  change (Part000.reasons_at prices volumes i)
    with (Web.reasons_at prices volumes i).
  destruct (negb (holding st) && (length (Web.reasons_at prices volumes i) =? 4)%nat);
    [reflexivity|].
  destruct (holding st); [|reflexivity].
  change (Part000.calculate_net_profit (entry st) (get prices i))
    with (Web.calculate_net_profit (entry st) (get prices i)).
  destruct (_ || _ || _); reflexivity.
Qed.

Lemma sim_run_same (prices volumes : list num) (n : nat) :
  Part000.sim_run prices volumes n = Web.sim_run prices volumes n.
Proof.
  unfold Part000.sim_run, Web.sim_run.
  apply fold_left_pointwise. apply sim_step_same.
Qed.

Lemma simulate_same (prices volumes : list num) :
  Part000.simulate prices volumes = Web.simulate prices volumes.
Proof.
  unfold Part000.simulate, Web.simulate. now rewrite sim_run_same.
Qed.

(** C10: the implementation in part_000 and the one in TradeSimWeb.tsx are
    equivalent: [simulate] produces the same event log on every pair of
    buffers, and each of the four indicator functions returns the same
    result on every input. *)
Theorem implementations_equivalent_C10 :
  (forall prices volumes,
      Part000.simulate prices volumes = Web.simulate prices volumes) /\
  (forall data, Part000.calculate_rsi data = Web.calculate_rsi data) /\
  (forall data period,
      Part000.calculate_sma data period = Web.calculate_sma data period) /\
  (forall data, Part000.calculate_macd data = Web.calculate_macd data) /\
  (forall p v, Part000.calculate_vwap p v = Web.calculate_vwap p v).
Proof.
  split; [exact simulate_same|]. repeat split.
Qed.

(* ================================================================== *)
(** ** Position state machine *)

(** The three things one loop iteration can do. *)
Lemma sim_step_cases (prices volumes : list num) (st : sim_state) (i : nat) :
  let st' := Web.sim_step prices volumes st i in
  st' = st \/
  (holding st = false /\ holding st' = true /\ entryIdx st' = i /\
   exists e, type e = BUY /\ time e = i /\ newLogs st' = newLogs st ++ [e]) \/
  (holding st = true /\ holding st' = false /\
   exists e, type e = SELL /\ time e = i /\ newLogs st' = newLogs st ++ [e]).
Proof.
  cbv zeta. unfold Web.sim_step.
  destruct (holding st) eqn:Hh; cbn [negb andb].
  - destruct (_ || _ || _).
    + right. right. split; [reflexivity|]. split; [reflexivity|].
      eexists. split; [|split]; [| |reflexivity]; reflexivity.
    + now left.
  - destruct (length _ =? 4)%nat.
    + right. left. split; [reflexivity|]. split; [reflexivity|].
      split; [reflexivity|]. eexists. split; [|split]; [| |reflexivity]; reflexivity.
    + now left.
Qed.

Lemma nth_error_snoc {A : Type} (l : list A) (x : A) (k : nat) (y : A) :
  nth_error (l ++ [x]) k = Some y ->
  ((k < length l)%nat /\ nth_error l k = Some y) \/ (k = length l /\ y = x).
Proof.
  intros H. destruct (Nat.lt_ge_cases k (length l)) as [Hlt | Hge].
  - left. split; [exact Hlt|]. now rewrite nth_error_app1 in H.
  - right. rewrite nth_error_app2 in H by exact Hge.
    destruct (k - length l)%nat as [|j] eqn:E.
    + cbn in H. split; [lia|congruence].
    + cbn in H. destruct j; discriminate.
Qed.

Lemma sim_inv_init : sim_inv sim_init 0.
Proof.
  split; cbn.
  - intros k e H. destruct k; discriminate.
  - intros k e1 e2 H. destruct k; discriminate.
  - intros e [].
  - reflexivity.
  - discriminate.
Qed.

(** Pushing an event of the right kind at index [n] keeps the invariant. *)
Lemma sim_inv_push (st st' : sim_state) (n : nat) (e : log) :
  sim_inv st n ->
  newLogs st' = newLogs st ++ [e] ->
  time e = n ->
  type e = (if holding st then SELL else BUY) ->
  holding st' = negb (holding st) ->
  (holding st' = true -> entryIdx st' = n) ->
  sim_inv st' (S n).
Proof.
  intros [Ha Hi Hb Hh _] Hlog Ht Hty Hh' He. split; rewrite Hlog.
  - intros k x Hk. apply nth_error_snoc in Hk as [[Hlt Hk] | [-> ->]].
    + now apply Ha.
    + rewrite Hty, Hh, <- Nat.negb_even. now destruct (Nat.even _).
  - intros k x y Hx Hy.
    apply nth_error_snoc in Hy as [[Hlt Hy] | [Hk ->]].
    + rewrite nth_error_app1 in Hx by lia. now apply (Hi k).
    + rewrite nth_error_app1 in Hx by lia.
      rewrite Ht. apply Hb. eapply nth_error_In, Hx.
  - intros x Hx. apply in_app_or in Hx as [Hx | [<- | []]].
    + specialize (Hb x Hx). lia.
    + lia.
  - rewrite Hh', Hh, length_app. cbn [length].
    rewrite Nat.add_1_r, Nat.odd_succ, <- Nat.negb_odd. reflexivity.
  - intros Hst'. exists e. rewrite at_last_app, (He Hst'), Ht, Hty.
    rewrite Hh' in Hst'. apply negb_true_iff in Hst'. rewrite Hst'. auto.
Qed.

Lemma sim_inv_step (prices volumes : list num) (st : sim_state) (n : nat) :
  sim_inv st n -> sim_inv (Web.sim_step prices volumes st n) (S n).
Proof.
  intros Hinv.
  destruct (sim_step_cases prices volumes st n)
    as [-> | [(Hh & Hh' & Hidx & e & Hty & Ht & Hlog)
             | (Hh & Hh' & e & Hty & Ht & Hlog)]].
  - destruct Hinv as [Ha Hi Hb Hh He]. split; auto.
    intros e He'. specialize (Hb e He'). lia.
  - apply (sim_inv_push st _ n e Hinv Hlog Ht); rewrite ?Hh; auto.
  - apply (sim_inv_push st _ n e Hinv Hlog Ht); rewrite ?Hh; auto.
    congruence.
Qed.

Lemma sim_run_succ (prices volumes : list num) (n : nat) :
  Web.sim_run prices volumes (S n)
  = Web.sim_step prices volumes (Web.sim_run prices volumes n) n.
Proof.
  unfold Web.sim_run. rewrite seq_S, fold_left_app. reflexivity.
Qed.

Lemma sim_run_inv (prices volumes : list num) (n : nat) :
  sim_inv (Web.sim_run prices volumes n) n.
Proof.
  induction n as [|n IH].
  - apply sim_inv_init.
  - rewrite sim_run_succ. apply sim_inv_step, IH.
Qed.

Lemma alternating_increasing_sell (l : list log) :
  alternating l -> increasing l -> sell_after_buy l.
Proof.
  intros Ha Hi k s Hk Hs. destruct k as [|k'].
  - specialize (Ha 0%nat s Hk). cbn in Ha. congruence.
  - destruct (nth_error l k') as [b|] eqn:Hb.
    + exists k', b. split; [reflexivity|]. split; [exact Hb|]. split.
      * pose proof (Ha k' b Hb) as Hty. pose proof (Ha (S k') s Hk) as Hty'.
        rewrite Nat.even_succ, <- Nat.negb_even in Hty'.
        destruct (Nat.even k'); [exact Hty|]. cbn in Hty'. congruence.
      * apply (Hi k' b s Hb Hk).
    + apply nth_error_None in Hb.
      assert (S k' < length l)%nat by (apply nth_error_Some; congruence). lia.
Qed.

(** C3: in every simulation pass at most one position is open at any index:
    an iteration that starts while holding appends no BUY, after every
    number of iterations the log alternates BUY, SELL, ... and [holding] is
    true exactly when the last event is a BUY, the one recorded at
    [entryIdx], an index already passed; in the final log every SELL
    directly follows its BUY and has a strictly greater time index.  The
    same holds for part_000, whose log is the same. *)
Theorem one_position_C3 (prices volumes : list num) :
  (forall st i e,
      holding st = true ->
      In e (newLogs (Web.sim_step prices volumes st i)) ->
      In e (newLogs st) \/ (type e = SELL /\ time e = i)) /\
  (forall n,
      alternating (newLogs (Web.sim_run prices volumes n)) /\
      holding (Web.sim_run prices volumes n)
      = Nat.odd (length (newLogs (Web.sim_run prices volumes n))) /\
      (holding (Web.sim_run prices volumes n) = true ->
       exists b,
         at_last (newLogs (Web.sim_run prices volumes n)) = Some b /\
         type b = BUY /\
         time b = entryIdx (Web.sim_run prices volumes n) /\
         (entryIdx (Web.sim_run prices volumes n) < n)%nat)) /\
  alternating (Web.simulate prices volumes) /\
  increasing (Web.simulate prices volumes) /\
  sell_after_buy (Web.simulate prices volumes) /\
  Part000.simulate prices volumes = Web.simulate prices volumes.
Proof.
  pose proof (sim_run_inv prices volumes (length prices)) as [Ha Hi _ _ _].
  split; [|split; [|split; [|split; [|split]]]].
  - intros st i e Hh He.
    destruct (sim_step_cases prices volumes st i)
      as [E | [(Hf & _) | (_ & _ & x & Hty & Ht & Hlog)]].
    + left. now rewrite E in He.
    + congruence.
    + rewrite Hlog in He. apply in_app_or in He as [He | [<- | []]]; auto.
  - intros n. destruct (sim_run_inv prices volumes n) as [Ha' _ Hb' Hh' He'].
    split; [exact Ha'|]. split; [exact Hh'|].
    intros Hn. destruct (He' Hn) as (b & Hlast & Hty & Ht).
    exists b. repeat split; try assumption.
    rewrite <- Ht. apply Hb'. unfold at_last in Hlast.
    destruct (rev _) as [|x l] eqn:E; [discriminate|].
    injection Hlast as ->. apply in_rev. rewrite E. now left.
  - exact Ha.
  - exact Hi.
  - apply alternating_increasing_sell; assumption.
  - apply simulate_same.
Qed.

(* ================================================================== *)
(** ** Signal aggregation *)

(** Four reasons are collected exactly when the four guards all pass. *)
Lemma reasons_length (prices volumes : list num) (i : nat) :
  (length (Web.reasons_at prices volumes i) =? 4)%nat
  = truthy_buy_condition prices volumes i.
Proof.
  unfold Web.reasons_at, truthy_buy_condition, RSI_BUY_THRESHOLD, VWAP_CONDITION.
  cbv zeta. cbn [andb].
  generalize (Web.calculate_rsi (slice_to (i + 1) prices))
             (Web.calculate_vwap (slice_to (i + 1) prices)
                                 (slice_to (i + 1) volumes))
             (Web.calculate_sma (slice_to (i + 1) prices) SMA_SHORT_PERIOD)
             (Web.calculate_sma (slice_to (i + 1) prices) SMA_LONG_PERIOD)
             (Web.calculate_macd (slice_to (i + 1) prices)).
  intros rsi vwap sma5 sma20 [macd signal].
  destruct rsi, vwap, sma5, sma20, macd, signal;
    repeat match goal with
           | |- context [if ?b then _ else _] => destruct b
           end;
    reflexivity.
Qed.

(** While flat, a BUY is emitted exactly when four reasons are collected. *)
Lemma emits_buy_flat (prices volumes : list num) (i : nat) :
  holding (Web.sim_run prices volumes i) = false ->
  emits_buy prices volumes i
  = (length (Web.reasons_at prices volumes i) =? 4)%nat.
Proof.
  intros Hh. unfold emits_buy, step_events.
  rewrite sim_run_succ. unfold Web.sim_step. rewrite Hh. cbn [negb andb].
  destruct (length _ =? 4)%nat.
  - cbn [push_log set_entryIdx set_entry set_holding newLogs].
    rewrite skipn_app, skipn_all, Nat.sub_diag. reflexivity.
  - now rewrite skipn_all.
Qed.

(** While holding, no BUY is emitted. *)
Lemma emits_buy_holding (prices volumes : list num) (i : nat) :
  holding (Web.sim_run prices volumes i) = true ->
  emits_buy prices volumes i = false.
Proof.
  intros Hh. unfold emits_buy, step_events.
  rewrite sim_run_succ. unfold Web.sim_step. rewrite Hh. cbn [negb andb].
  destruct (_ || _ || _).
  - cbn [push_log set_holding newLogs].
    rewrite skipn_app, skipn_all, Nat.sub_diag. reflexivity.
  - now rewrite skipn_all.
Qed.

(** What the code does: while flat, a BUY is emitted at [i] exactly when all
    four indicators are present, truthy and satisfy their conditions. *)
Lemma buy_iff_truthy_condition (prices volumes : list num) (i : nat) :
  holding (Web.sim_run prices volumes i) = false ->
  emits_buy prices volumes i = truthy_buy_condition prices volumes i.
Proof.
  intros Hh. now rewrite (emits_buy_flat prices volumes i Hh), reasons_length.
Qed.

(** The guards of the code imply the condition of the specification: a BUY
    needs all four conditions, partial agreement gives none. *)
Lemma truthy_condition_implies_spec (prices volumes : list num) (i : nat) :
  truthy_buy_condition prices volumes i = true ->
  spec_buy_condition prices volumes i = true.
Proof.
  unfold truthy_buy_condition, spec_buy_condition. cbv zeta.
  generalize (Web.calculate_rsi (slice_to (i + 1) prices))
             (Web.calculate_vwap (slice_to (i + 1) prices)
                                 (slice_to (i + 1) volumes))
             (Web.calculate_sma (slice_to (i + 1) prices) SMA_SHORT_PERIOD)
             (Web.calculate_sma (slice_to (i + 1) prices) SMA_LONG_PERIOD)
             (Web.calculate_macd (slice_to (i + 1) prices)).
  intros rsi vwap sma5 sma20 [macd signal].
  destruct rsi, vwap, sma5, sma20, macd, signal; try discriminate.
  rewrite !andb_true_iff. tauto.
Qed.

(** C1 at the failing input: at index 26 of the oversold series the position
    is flat and all four indicators are present and satisfy their conditions
    (RSI is exactly 0), yet no BUY event is emitted and the whole log is
    empty, in both implementations. *)
Theorem rsi_zero_no_buy_C1 :
  holding (Web.sim_run oversold_prices oversold_volumes 26) = false /\
  match Web.calculate_rsi (slice_to 27 oversold_prices) with
  | Some rsi => num_eq rsi (Fin 0)
  | None => False
  end /\
  spec_buy_condition oversold_prices oversold_volumes 26 = true /\
  emits_buy oversold_prices oversold_volumes 26 = false /\
  Web.simulate oversold_prices oversold_volumes = [] /\
  Part000.simulate oversold_prices oversold_volumes = [].
Proof.
  split; [vm_compute; reflexivity|].
  split; [vm_compute; reflexivity|].
  split; [vm_compute; reflexivity|].
  split; [vm_compute; reflexivity|].
  split; vm_compute; reflexivity.
Qed.

(** With a small gain in the window the RSI is positive and the same guards
    pass: a BUY at index 26, closed by take-profit at index 28. *)
Lemma rebound_buy_then_sell :
  map (fun e => (time e, type e)) (Web.simulate rebound_prices rebound_volumes)
  = [(26%nat, BUY); (28%nat, SELL)] /\
  emits_buy rebound_prices rebound_volumes 26 = true.
Proof. split; vm_compute; reflexivity. Qed.

(* ================================================================== *)
(** ** Contents of the event log *)

Lemma nlt_irrefl (x : num) : (x <? x)%num = false.
Proof.
  destruct x as [q| | |]; cbn; try reflexivity.
  apply negb_false_iff, Qle_bool_iff, Qle_refl.
Qed.

Lemma at_last_inv {A : Type} (l : list A) (x : A) :
  at_last l = Some x -> exists l', l = l' ++ [x].
Proof.
  unfold at_last. destruct (rev l) as [|y r] eqn:E; [discriminate|].
  intros [= ->]. exists (rev r).
  apply (f_equal (@rev A)) in E. now rewrite rev_involutive in E.
Qed.

Lemma at_last_In {A : Type} (l : list A) (x : A) : at_last l = Some x -> In x l.
Proof.
  intros H. destruct (at_last_inv l x H) as [l' ->].
  apply in_or_app. right. now left.
Qed.

(** The element before the end of the array is the one [at(-1)] returns. *)
Lemma at_last_nth {A : Type} (l : list A) (x y : A) (k : nat) :
  at_last l = Some x -> nth_error l k = Some y -> S k = length l -> x = y.
Proof.
  intros H Hk Hlen. destruct (at_last_inv l x H) as [l' ->].
  rewrite length_app in Hlen. cbn in Hlen.
  rewrite nth_error_app2 in Hk by lia.
  replace (k - length l')%nat with 0%nat in Hk by lia. cbn in Hk. congruence.
Qed.

Lemma skipn_to_last {A : Type} (l : list A) (k : nat) :
  length l = S k -> exists x, skipn k l = [x] /\ at_last l = Some x.
Proof.
  intros Hlen.
  assert (Hs : length (skipn k l) = 1%nat) by (rewrite length_skipn; lia).
  destruct (skipn k l) as [|x [|y r]] eqn:E; try discriminate.
  exists x. split; [reflexivity|].
  rewrite <- (firstn_skipn k l), E. apply at_last_app.
Qed.

(** With exactly 26 points the signal series holds one value, the MACD
    itself. *)
Lemma calculate_macd_at_26 (data : list num) :
  length data = 26%nat -> exists m, Web.calculate_macd data = (Some m, Some m).
Proof.
  intros Hlen. unfold Web.calculate_macd. change MACD_SLOW with 26%nat.
  rewrite Hlen. change (26 <? 26)%nat with false. change (26 - 1)%nat with 25%nat.
  cbv iota.
  set (macd := mapi _ (Web.ema data MACD_FAST)).
  assert (Hm : length macd = 26%nat).
  { unfold macd. now rewrite mapi_length, ema_length. }
  destruct (skipn_to_last macd 25 Hm) as (m & Hs & Hl).
  exists m. unfold slice_from. cbn [Nat.sub]. rewrite Hs, Hl. reflexivity.
Qed.

(** Four reasons cannot be collected before index 26. *)
Lemma reasons_need_26 (prices volumes : list num) (i : nat) :
  (length (Web.reasons_at prices volumes i) =? 4)%nat = true -> (26 <= i)%nat.
Proof.
  rewrite reasons_length. unfold truthy_buy_condition. cbv zeta.
  destruct (Nat.lt_ge_cases i 26) as [Hlt | Hge]; [|intros _; exact Hge].
  assert (Hlen : (length (slice_to (i + 1) prices) <= 26)%nat).
  { unfold slice_to. rewrite length_firstn. lia. }
  assert (Hm : exists o, Web.calculate_macd (slice_to (i + 1) prices) = (o, o)).
  { destruct (Nat.eq_dec (length (slice_to (i + 1) prices)) 26) as [E | NE].
    - destruct (calculate_macd_at_26 _ E) as [m Em]. now exists (Some m).
    - exists None. apply calculate_macd_none. lia. }
  destruct Hm as [o ->].
  generalize (Web.calculate_rsi (slice_to (i + 1) prices))
             (Web.calculate_vwap (slice_to (i + 1) prices)
                                 (slice_to (i + 1) volumes))
             (Web.calculate_sma (slice_to (i + 1) prices) SMA_SHORT_PERIOD)
             (Web.calculate_sma (slice_to (i + 1) prices) SMA_LONG_PERIOD).
  intros rsi vwap sma5 sma20.
  destruct rsi, vwap, sma5, sma20, o; try discriminate.
  unfold ngt. rewrite nlt_irrefl, !andb_false_r. discriminate.
Qed.

(** One loop iteration in full: nothing happens, a BUY is pushed, or a SELL
    is pushed. *)
Lemma sim_step_detail (prices volumes : list num) (st : sim_state) (i : nat) :
  (Web.sim_step prices volumes st i = st /\
   (holding st = true -> (MAX_HOLD_TIME <=? i - entryIdx st)%nat = false)) \/
  (holding st = false /\
   (length (Web.reasons_at prices volumes i) =? 4)%nat = true /\
   Web.sim_step prices volumes st i
   = {| holding := true; entry := get prices i; entryIdx := i;
        newLogs := newLogs st ++
          [{| time := i; type := BUY; price := get prices i;
              reason := Some (join (Web.reasons_at prices volumes i));
              profit := None |}] |}) \/
  (holding st = true /\
   Web.sim_step prices volumes st i
   = {| holding := false; entry := entry st; entryIdx := entryIdx st;
        newLogs := newLogs st ++
          [{| time := i; type := SELL; price := get prices i; reason := None;
              profit := Some (Web.calculate_net_profit (entry st) (get prices i))
           |}] |}).
Proof.
  unfold Web.sim_step.
  destruct (holding st) eqn:Hh; cbn [negb andb].
  - destruct (_ || _ || _) eqn:E.
    + right. right. split; reflexivity.
    + left. split; [reflexivity|]. intros _.
      apply orb_false_iff in E. apply E.
  - destruct (length _ =? 4)%nat eqn:E.
    + right. left. repeat split.
    + left. split; [reflexivity|discriminate].
Qed.

Lemma log_inv_init (prices : list num) : log_inv prices sim_init 0.
Proof.
  split; cbn; try (intros e []).
  - intros k b s H. destruct k; discriminate.
  - discriminate.
Qed.

Lemma log_inv_step (prices volumes : list num) (st : sim_state) (n : nat) :
  sim_inv st n -> log_inv prices st n ->
  log_inv prices (Web.sim_step prices volumes st n) (S n).
Proof.
  intros [Ha _ Hb Hh _] [Hlate Hprice Hfields Hpairs Hopen].
  destruct (sim_step_detail prices volumes st n)
    as [[E Hcond] | [(Hflat & Hfour & E) | (Hhold & E)]]; rewrite E; clear E.
  - (* nothing pushed *)
    split; auto. intros Hst.
    destruct (Hopen Hst) as (b & Hl & Hp & Ht & _).
    exists b. repeat split; try assumption.
    specialize (Hcond Hst). apply Nat.leb_gt in Hcond.
    unfold MAX_HOLD_TIME in *. lia.
  - (* a BUY is pushed *)
    pose proof (reasons_need_26 prices volumes n Hfour) as H26.
    split; cbn [newLogs holding entry entryIdx].
    + intros x Hx. apply in_app_or in Hx as [Hx | [<- | []]]; [auto|exact H26].
    + intros x Hx. apply in_app_or in Hx as [Hx | [<- | []]]; [auto|reflexivity].
    + intros x Hx. apply in_app_or in Hx as [Hx | [<- | []]]; [now apply Hfields|].
      cbn. split; [discriminate|reflexivity].
    + intros k b s Hkb Hks Hty.
      apply nth_error_snoc in Hks as [[Hlt Hks] | [Hk ->]].
      * rewrite nth_error_app1 in Hkb by lia. now apply (Hpairs k).
      * exfalso. rewrite nth_error_app1 in Hkb by lia.
        specialize (Ha k b Hkb).
        rewrite Hflat, <- Hk, Nat.odd_succ in Hh. rewrite <- Hh in Ha.
        congruence.
    + intros _. eexists. rewrite at_last_app. repeat split.
      unfold MAX_HOLD_TIME. lia.
  - (* a SELL is pushed *)
    destruct (Hopen Hhold) as (b0 & Hl & Hp & Ht & Hmax).
    pose proof (at_last_In _ _ Hl) as Hin.
    pose proof (Hb b0 Hin) as Hbefore. pose proof (Hlate b0 Hin) as H26.
    split; cbn [newLogs holding entry entryIdx].
    + intros x Hx. apply in_app_or in Hx as [Hx | [<- | []]]; [auto|]. cbn. lia.
    + intros x Hx. apply in_app_or in Hx as [Hx | [<- | []]]; [auto|reflexivity].
    + intros x Hx. apply in_app_or in Hx as [Hx | [<- | []]]; [now apply Hfields|].
      cbn. split; [reflexivity|discriminate].
    + intros k b s Hkb Hks Hty.
      apply nth_error_snoc in Hks as [[Hlt Hks] | [Hk ->]].
      * rewrite nth_error_app1 in Hkb by lia. now apply (Hpairs k).
      * rewrite nth_error_app1 in Hkb by lia.
        assert (b0 = b) as <- by (apply (at_last_nth _ _ _ k Hl Hkb); lia).
        cbn [profit price time]. rewrite Hp. split; [reflexivity|lia].
    + discriminate.
Qed.

Lemma sim_run_log_inv (prices volumes : list num) (n : nat) :
  log_inv prices (Web.sim_run prices volumes n) n.
Proof.
  induction n as [|n IH].
  - apply log_inv_init.
  - rewrite sim_run_succ. apply log_inv_step; [apply sim_run_inv|exact IH].
Qed.

(** X1: every event of the log produced by [simulate] refers to a tick of the
    buffer at an index from 26 on (MACD and its signal need 26 points and
    are equal at exactly 26), carries the price of that tick, and has the
    fields of its kind: a BUY has a reason and no profit, a SELL a profit and
    no reason. *)
Theorem logged_events_X1 (prices volumes : list num) :
  Forall (fun e =>
            (26 <= time e < length prices)%nat /\
            price e = get prices (time e) /\
            match type e with
            | BUY => reason e <> None /\ profit e = None
            | SELL => reason e = None /\ profit e <> None
            end)
         (Web.simulate prices volumes).
Proof.
  apply Forall_forall. intros e He. unfold Web.simulate in He.
  destruct (sim_run_log_inv prices volumes (length prices))
    as [Hlate Hprice Hfields _ _].
  destruct (sim_run_inv prices volumes (length prices)) as [_ _ Hb _ _].
  split; [split; [apply Hlate, He|apply Hb, He]|].
  split; [apply Hprice, He|apply Hfields, He].
Qed.

(** X2: in the log produced by [simulate], the event after a BUY is the SELL
    that closes it: its profit is [calculate_net_profit] of the two logged
    prices, and it comes at most MAX_HOLD_TIME = 90 ticks after the BUY. *)
Theorem sell_closes_buy_X2 (prices volumes : list num) (k : nat) (b s : log) :
  nth_error (Web.simulate prices volumes) k = Some b ->
  nth_error (Web.simulate prices volumes) (S k) = Some s ->
  type b = BUY ->
  type s = SELL /\
  profit s = Some (Web.calculate_net_profit (price b) (price s)) /\
  (time b < time s <= time b + 90)%nat.
Proof.
  intros Hb Hs Hty. unfold Web.simulate in *.
  destruct (sim_run_log_inv prices volumes (length prices))
    as [_ _ _ Hpairs _].
  destruct (sim_run_inv prices volumes (length prices)) as [Ha Hi _ _ _].
  destruct (Hpairs k b s Hb Hs Hty) as [Hp Ht].
  split; [|split; [exact Hp|split; [apply (Hi k b s Hb Hs)|exact Ht]]].
  pose proof (Ha k b Hb) as Hkb. pose proof (Ha (S k) s Hs) as Hks.
  rewrite Nat.even_succ, <- Nat.negb_even in Hks.
  destruct (Nat.even k); [exact Hks|congruence].
Qed.

Lemma sell_closes_buy_X2_witness :
  exists b s,
    nth_error (Web.simulate rebound_prices rebound_volumes) 0 = Some b /\
    nth_error (Web.simulate rebound_prices rebound_volumes) 1 = Some s /\
    type b = BUY /\
    type s = SELL /\
    profit s = Some (Web.calculate_net_profit (price b) (price s)) /\
    (time b < time s <= time b + 90)%nat.
Proof.
  destruct rebound_buy_then_sell as [Hlog _].
  destruct (Web.simulate rebound_prices rebound_volumes) as [|b [|s l]] eqn:E;
    [discriminate Hlog|discriminate Hlog|].
  assert (H0 : nth_error (Web.simulate rebound_prices rebound_volumes) 0 = Some b)
    by (rewrite E; reflexivity).
  assert (H1 : nth_error (Web.simulate rebound_prices rebound_volumes) 1 = Some s)
    by (rewrite E; reflexivity).
  assert (H2 : type b = BUY) by (cbn in Hlog; congruence).
  exists b, s. split; [reflexivity|]. split; [reflexivity|]. split; [exact H2|].
  exact (sell_closes_buy_X2 rebound_prices rebound_volumes 0 b s H0 H1 H2).
Defined.

(* ================================================================== *)
(** ** Monotone price series *)

Lemma get_map_Fin (qs : list Q) (i : nat) :
  (i < length qs)%nat -> get (map Fin qs) i = Fin (nth i qs 0%Q).
Proof.
  intros H. unfold get.
  rewrite (nth_indep (map Fin qs) NaN (Fin 0)) by (now rewrite length_map).
  apply (map_nth Fin).
Qed.

Lemma nth_error_map_Fin (qs : list Q) (k : nat) (x : num) :
  nth_error (map Fin qs) k = Some x ->
  (k < length qs)%nat /\ x = Fin (nth k qs 0%Q).
Proof.
  intros H.
  assert (Hk : (k < length qs)%nat).
  { rewrite <- (length_map Fin). apply nth_error_Some. congruence. }
  split; [exact Hk|].
  rewrite <- (get_map_Fin qs k Hk). unfold get.
  apply (nth_error_nth _ _ NaN) in H. now rewrite H.
Qed.

(** The delta at index [k >= 1] of a finite series. *)
Lemma delta_map_Fin (qs : list Q) (k : nat) (x : num) :
  nth_error (map Fin qs) k = Some x -> k <> 0%nat ->
  (x - get (map Fin qs) (k - 1))%num
  = Fin (nth k qs 0 - nth (k - 1) qs 0)%Q.
Proof.
  intros H Hk. destruct (nth_error_map_Fin qs k x H) as [Hlt ->].
  rewrite get_map_Fin by lia. reflexivity.
Qed.

Lemma deltas_nondecreasing (qs : list Q) :
  nondecreasing qs ->
  Forall nonneg
    (mapi (fun i v => if (i =? 0)%nat then Fin 0
                      else (v - get (map Fin qs) (i - 1))%num)
          (map Fin qs)).
Proof.
  intros Hmono. apply Forall_mapi_from. intros k x Hk. cbn [Nat.add].
  destruct (Nat.eqb_spec k 0) as [->|Hne]; [cbn; lra|].
  rewrite (delta_map_Fin qs k x Hk Hne).
  destruct (nth_error_map_Fin qs k x Hk) as [Hlt _].
  specialize (Hmono (k - 1)%nat).
  replace (S (k - 1)) with k in Hmono by lia.
  specialize (Hmono Hlt). cbn. lra.
Qed.

Lemma deltas_nonincreasing (qs : list Q) :
  nonincreasing qs ->
  Forall nonpos
    (mapi (fun i v => if (i =? 0)%nat then Fin 0
                      else (v - get (map Fin qs) (i - 1))%num)
          (map Fin qs)).
Proof.
  intros Hmono. apply Forall_mapi_from. intros k x Hk. cbn [Nat.add].
  destruct (Nat.eqb_spec k 0) as [->|Hne]; [cbn; lra|].
  rewrite (delta_map_Fin qs k x Hk Hne).
  destruct (nth_error_map_Fin qs k x Hk) as [Hlt _].
  specialize (Hmono (k - 1)%nat).
  replace (S (k - 1)) with k in Hmono by lia.
  specialize (Hmono Hlt). cbn. lra.
Qed.

(** A delta that is not negative contributes no loss, one that is not
    positive no gain. *)
Lemma down_of_nonneg (d : num) :
  nonneg d -> is_zero (if (d <? Fin 0)%num then (- d)%num else Fin 0).
Proof.
  destruct d as [q| | |]; cbn [nonneg]; try tauto. intros Hq.
  destruct (Fin q <? Fin 0)%num eqn:E.
  - apply nlt_fin in E. lra.
  - cbn. reflexivity.
Qed.

Lemma up_of_nonpos (d : num) :
  nonpos d -> is_zero (if (d >? Fin 0)%num then d else Fin 0).
Proof.
  destruct d as [q| | |]; cbn [nonpos]; try tauto. intros Hq.
  destruct (Fin q >? Fin 0)%num eqn:E.
  - apply ngt_fin in E. lra.
  - cbn. reflexivity.
Qed.

Lemma down_of_nonpos (d : num) :
  nonpos d -> nonneg (if (d <? Fin 0)%num then (- d)%num else Fin 0).
Proof.
  destruct d as [q| | |]; cbn [nonpos]; try tauto. intros Hq.
  apply down_nonneg. exact I.
Qed.

Lemma fold_nadd_zero (arr : list num) :
  Forall is_zero arr ->
  forall acc, is_zero acc -> is_zero (fold_left nadd arr acc).
Proof.
  induction 1 as [|x arr Hx _ IH]; intros acc Hacc; cbn; [exact Hacc|].
  apply IH. destruct acc, x; cbn in *; try tauto. lra.
Qed.

(** The mean of a window without any contribution is zero. *)
Lemma mean_zero (arr : list num) :
  Forall is_zero arr ->
  exists a, (sum (slice_last RSI_PERIOD arr) / of_nat RSI_PERIOD)%num = Fin a /\
            (a == 0)%Q.
Proof.
  intros H.
  assert (Hs : is_zero (sum (slice_last RSI_PERIOD arr))).
  { apply fold_nadd_zero; [now apply Forall_slice_last|]. cbn. reflexivity. }
  destruct (sum _) as [q| | |]; cbn [is_zero] in Hs; try tauto.
  exists (q / inject_Z 14)%Q. split; [reflexivity|].
  rewrite Hs. reflexivity.
Qed.

(** A series that never falls has no loss in any window: RSI saturates. *)
Lemma rsi_nondecreasing (qs : list Q) :
  nondecreasing qs -> (15 <= length qs)%nat ->
  Web.calculate_rsi (map Fin qs) = Some (Fin 100).
Proof.
  intros Hmono Hlen. unfold Web.calculate_rsi, Web.rsi_averages.
  rewrite length_map. change (RSI_PERIOD + 1)%nat with 15%nat.
  destruct (Nat.ltb_spec (length qs) 15); [lia|].
  pose proof (deltas_nondecreasing qs Hmono) as Hd.
  set (deltas := mapi _ (map Fin qs)) in *.
  destruct (mean_zero
              (map (fun d => if (d <? Fin 0)%num then (- d)%num else Fin 0) deltas))
    as (a & Ea & Ha).
  { apply Forall_map. eapply Forall_impl; [|exact Hd]. apply down_of_nonneg. }
  cbv zeta. rewrite Ea. cbn [neqb].
  apply Qeq_bool_iff in Ha. now rewrite Ha.
Qed.

(** A series that never rises has no gain in any window: RSI is 100 (no loss
    either) or a number equal to zero. *)
Lemma rsi_nonincreasing (qs : list Q) :
  nonincreasing qs -> (15 <= length qs)%nat ->
  Web.calculate_rsi (map Fin qs) = Some (Fin 100) \/
  exists r, Web.calculate_rsi (map Fin qs) = Some (Fin r) /\ (r == 0)%Q.
Proof.
  intros Hmono Hlen. unfold Web.calculate_rsi, Web.rsi_averages.
  rewrite length_map. change (RSI_PERIOD + 1)%nat with 15%nat.
  destruct (Nat.ltb_spec (length qs) 15); [lia|].
  pose proof (deltas_nonincreasing qs Hmono) as Hd.
  set (deltas := mapi _ (map Fin qs)) in *.
  destruct (mean_zero
              (map (fun d => if (d >? Fin 0)%num then d else Fin 0) deltas))
    as (u & Eu & Hu).
  { apply Forall_map. eapply Forall_impl; [|exact Hd]. apply up_of_nonpos. }
  destruct (mean_nonneg
              (sum (slice_last RSI_PERIOD
                      (map (fun d => if (d <? Fin 0)%num then (- d)%num else Fin 0)
                           deltas))))
    as (d & Ed & Hdn).
  { apply sum_nonneg, Forall_slice_last, Forall_map.
    eapply Forall_impl; [|exact Hd]. apply down_of_nonpos. }
  cbv zeta. rewrite Eu, Ed. cbn [neqb].
  destruct (Qeq_bool d 0) eqn:E; [now left|right].
  apply Qeq_bool_false in E.
  assert (H1 : ~ (1 + u / d == 0)%Q).
  { rewrite Hu. unfold Qdiv. rewrite Qmult_0_l. discriminate. }
  rewrite (ndiv_fin u d E). cbn [nadd]. rewrite (ndiv_fin 100 (1 + u / d) H1).
  eexists. split; [reflexivity|].
  rewrite Hu. field. exact E.
Qed.

Lemma firstn_nondecreasing (qs : list Q) (n : nat) :
  nondecreasing qs -> nondecreasing (firstn n qs).
Proof.
  intros H i Hi. rewrite length_firstn in Hi.
  rewrite !nth_firstn.
  destruct (Nat.ltb_spec i n); [|lia]. destruct (Nat.ltb_spec (S i) n); [|lia].
  apply H. lia.
Qed.

Lemma firstn_nonincreasing (qs : list Q) (n : nat) :
  nonincreasing qs -> nonincreasing (firstn n qs).
Proof.
  intros H i Hi. rewrite length_firstn in Hi.
  rewrite !nth_firstn.
  destruct (Nat.ltb_spec i n); [|lia]. destruct (Nat.ltb_spec (S i) n); [|lia].
  apply H. lia.
Qed.

(** Without the RSI reason there are never four reasons. *)
Lemma no_rsi_reason (prices volumes : list num) (i : nat) :
  match Web.calculate_rsi (slice_to (i + 1) prices) with
  | Some r => truthy r && (r <? Fin 30)%num
  | None => false
  end = false ->
  (length (Web.reasons_at prices volumes i) =? 4)%nat = false.
Proof.
  rewrite reasons_length. unfold truthy_buy_condition. cbv zeta.
  generalize (Web.calculate_rsi (slice_to (i + 1) prices))
             (Web.calculate_vwap (slice_to (i + 1) prices)
                                 (slice_to (i + 1) volumes))
             (Web.calculate_sma (slice_to (i + 1) prices) SMA_SHORT_PERIOD)
             (Web.calculate_sma (slice_to (i + 1) prices) SMA_LONG_PERIOD)
             (Web.calculate_macd (slice_to (i + 1) prices)).
  intros rsi vwap sma5 sma20 [macd signal] H.
  destruct rsi, vwap, sma5, sma20, macd, signal; try reflexivity.
  now rewrite H.
Qed.

(** As long as four reasons are never collected, the loop changes nothing. *)
Lemma sim_run_no_buy (prices volumes : list num) (n : nat) :
  (forall i, (i < n)%nat ->
             (length (Web.reasons_at prices volumes i) =? 4)%nat = false) ->
  Web.sim_run prices volumes n = sim_init.
Proof.
  induction n as [|n IH]; intros H; [reflexivity|].
  rewrite sim_run_succ, IH by (intros i Hi; apply H; lia).
  unfold Web.sim_step. rewrite (H n) by lia. reflexivity.
Qed.

(** X4: on a price series that never falls (in particular a steady uptrend
    or a flat market) the average loss is zero in every window, the RSI is
    100 whenever it is defined, and [simulate] logs nothing, whatever the
    volumes; likewise in part_000. *)
Theorem uptrend_never_trades_X4 (qs : list Q) (volumes : list num) :
  nondecreasing qs ->
  (forall n, (15 <= n <= length qs)%nat ->
             Web.calculate_rsi (slice_to n (map Fin qs)) = Some (Fin 100)) /\
  Web.simulate (map Fin qs) volumes = [] /\
  Part000.simulate (map Fin qs) volumes = [].
Proof.
  intros Hmono.
  assert (Hrsi : forall n, (15 <= n <= length qs)%nat ->
                 Web.calculate_rsi (slice_to n (map Fin qs)) = Some (Fin 100)).
  { intros n Hn. unfold slice_to. rewrite firstn_map.
    apply rsi_nondecreasing; [now apply firstn_nondecreasing|].
    rewrite length_firstn. lia. }
  assert (Hlog : Web.simulate (map Fin qs) volumes = []).
  { unfold Web.simulate. rewrite sim_run_no_buy; [reflexivity|].
    intros i Hi. rewrite length_map in Hi. apply no_rsi_reason.
    destruct (Nat.lt_ge_cases (i + 1) 15) as [Hlt | Hge].
    - destruct (Web.calculate_rsi _) eqn:E; [|reflexivity].
      assert (Web.calculate_rsi (slice_to (i + 1) (map Fin qs)) = None).
      { apply calculate_rsi_none. unfold slice_to. rewrite length_firstn. lia. }
      congruence.
    - rewrite Hrsi by lia. reflexivity. }
  split; [exact Hrsi|]. split; [exact Hlog|].
  now rewrite simulate_same.
Qed.

(** X5: on a price series that never rises the average gain is zero in every
    window, the RSI is 100 or 0 whenever it is defined, and since the guard
    [rsi && rsi < 30] rejects both, [simulate] logs nothing, whatever the
    volumes; likewise in part_000. *)
Theorem downtrend_never_trades_X5 (qs : list Q) (volumes : list num) :
  nonincreasing qs ->
  (forall n, (15 <= n <= length qs)%nat ->
             exists r, Web.calculate_rsi (slice_to n (map Fin qs)) = Some (Fin r) /\
                       (r == 100 \/ r == 0)%Q) /\
  Web.simulate (map Fin qs) volumes = [] /\
  Part000.simulate (map Fin qs) volumes = [].
Proof.
  intros Hmono.
  assert (Hrsi : forall n, (15 <= n <= length qs)%nat ->
                 exists r, Web.calculate_rsi (slice_to n (map Fin qs)) = Some (Fin r) /\
                           (r == 100 \/ r == 0)%Q).
  { intros n Hn. unfold slice_to. rewrite firstn_map.
    destruct (rsi_nonincreasing (firstn n qs)) as [E | (r & E & Hr)].
    - now apply firstn_nonincreasing.
    - rewrite length_firstn. lia.
    - exists 100%Q. split; [exact E|left; reflexivity].
    - exists r. split; [exact E|now right]. }
  assert (Hlog : Web.simulate (map Fin qs) volumes = []).
  { unfold Web.simulate. rewrite sim_run_no_buy; [reflexivity|].
    intros i Hi. rewrite length_map in Hi. apply no_rsi_reason.
    destruct (Nat.lt_ge_cases (i + 1) 15) as [Hlt | Hge].
    - destruct (Web.calculate_rsi _) eqn:E; [|reflexivity].
      assert (Web.calculate_rsi (slice_to (i + 1) (map Fin qs)) = None).
      { apply calculate_rsi_none. unfold slice_to. rewrite length_firstn. lia. }
      congruence.
    - destruct (Hrsi (i + 1)%nat) as (r & -> & [Hr | Hr]); [lia| |].
      + cbn. apply andb_false_iff. right.
        apply negb_false_iff, Qle_bool_iff. lra.
      + cbn. apply andb_false_iff. left.
        apply negb_false_iff, Qeq_bool_iff, Hr. }
  split; [exact Hrsi|]. split; [exact Hlog|].
  now rewrite simulate_same.
Qed.

Lemma adjacent_nondecreasing (qs : list Q) :
  adjacent_all Qle_bool qs = true -> nondecreasing qs.
Proof.
  induction qs as [|a qs IH]; intros H i Hi; [cbn in Hi; lia|].
  destruct qs as [|b r]; [cbn in Hi; lia|].
  cbn [adjacent_all] in H. apply andb_true_iff in H as [Hab Hr].
  destruct i as [|i].
  - cbn. now apply Qle_bool_iff.
  - apply (IH Hr i). cbn in Hi |- *. lia.
Qed.

Lemma adjacent_nonincreasing (qs : list Q) :
  adjacent_all (fun a b => Qle_bool b a) qs = true -> nonincreasing qs.
Proof.
  induction qs as [|a qs IH]; intros H i Hi; [cbn in Hi; lia|].
  destruct qs as [|b r]; [cbn in Hi; lia|].
  cbn [adjacent_all] in H. apply andb_true_iff in H as [Hab Hr].
  destruct i as [|i].
  - cbn. now apply Qle_bool_iff.
  - apply (IH Hr i). cbn in Hi |- *. lia.
Qed.

Lemma rising30_nondecreasing : nondecreasing rising30.
Proof. apply adjacent_nondecreasing. vm_compute. reflexivity. Qed.

Lemma falling30_nonincreasing : nonincreasing falling30.
Proof. apply adjacent_nonincreasing. vm_compute. reflexivity. Qed.

Lemma uptrend_never_trades_X4_witness :
  nondecreasing rising30 /\ Web.simulate (map Fin rising30) [] = [].
Proof.
  split; [exact rising30_nondecreasing|].
  exact (proj1 (proj2 (uptrend_never_trades_X4 rising30 []
                         rising30_nondecreasing))).
Defined.

Lemma downtrend_never_trades_X5_witness :
  nonincreasing falling30 /\ Web.simulate (map Fin falling30) [] = [].
Proof.
  split; [exact falling30_nonincreasing|].
  exact (proj1 (proj2 (downtrend_never_trades_X5 falling30 []
                         falling30_nonincreasing))).
Defined.

(* ================================================================== *)
(** ** EMA *)

Lemma reducei_from_snoc {A B : Type} (f : B -> A -> nat -> B) (arr : list A)
      (x : A) :
  forall i acc,
    reducei_from f i (arr ++ [x]) acc
    = f (reducei_from f i arr acc) x (i + length arr)%nat.
Proof.
  induction arr as [|y arr IH]; intros i acc; cbn.
  - now rewrite Nat.add_0_r.
  - rewrite IH. f_equal. lia.
Qed.

(** Appending one value appends one value to the EMA series. *)
Lemma ema_snoc (arr : list num) (x : num) (n : nat) :
  Web.ema (arr ++ [x]) n
  = Web.ema arr n ++
    [if (length arr =? 0)%nat then x
     else (x * (Fin 2 / (of_nat n + Fin 1))
           + get (Web.ema arr n) (length arr - 1)
             * (Fin 1 - Fin 2 / (of_nat n + Fin 1)))%num].
Proof.
  unfold Web.ema, reducei. rewrite reducei_from_snoc. cbn [Nat.add].
  destruct (length arr =? 0)%nat; reflexivity.
Qed.

Lemma ema_head (arr : list num) (n : nat) :
  nth_error (Web.ema arr n) 0 = nth_error arr 0.
Proof.
  induction arr as [|x arr IH] using rev_ind; [reflexivity|].
  rewrite ema_snoc. destruct arr as [|y arr].
  - reflexivity.
  - rewrite nth_error_app1 by (rewrite ema_length; cbn; lia).
    rewrite IH. reflexivity.
Qed.

Lemma ema_step (arr : list num) (n : nat) :
  forall i, (S i < length arr)%nat ->
    get (Web.ema arr n) (S i)
    = (get arr (S i) * (Fin 2 / (of_nat n + Fin 1))
       + get (Web.ema arr n) i * (Fin 1 - Fin 2 / (of_nat n + Fin 1)))%num.
Proof.
  induction arr as [|x arr IH] using rev_ind; intros i Hi; [cbn in Hi; lia|].
  rewrite length_app in Hi. cbn [length] in Hi.
  rewrite ema_snoc. unfold get in *.
  destruct (Nat.lt_ge_cases (S i) (length arr)) as [Hlt | Hge].
  - rewrite !app_nth1 by (rewrite ?ema_length; lia). now apply IH.
  - assert (Hs : S i = length arr) by lia.
    rewrite (app_nth2 (Web.ema arr n)) by (rewrite ema_length; lia).
    rewrite (app_nth2 arr) by lia.
    rewrite (app_nth1 (Web.ema arr n)) by (rewrite ema_length; lia).
    rewrite ema_length, <- Hs, Nat.sub_diag. cbn [nth Nat.eqb].
    replace (S i - 1)%nat with i by lia. reflexivity.
Qed.

Lemma ema_prefix (arr more : list num) (n : nat) :
  firstn (length arr) (Web.ema (arr ++ more) n) = Web.ema arr n.
Proof.
  induction more as [|y more IH] using rev_ind.
  - rewrite app_nil_r, <- (ema_length arr n). apply firstn_all.
  - rewrite app_assoc, ema_snoc, firstn_app, IH.
    rewrite ema_length, length_app.
    replace (length arr - (length arr + length more))%nat with 0%nat by lia.
    cbn [firstn]. apply app_nil_r.
Qed.

(** X10: the [reduce] inside [calculate_macd] builds the EMA series: it is
    as long as the input, starts with the first input value, satisfies
    ema[i+1] = arr[i+1] * k + ema[i] * (1 - k) with k = 2 / (n + 1), and the
    series of a longer input starts with the series of its prefix. *)
Theorem ema_recurrence_X10 (arr : list num) (n : nat) :
  length (Web.ema arr n) = length arr /\
  nth_error (Web.ema arr n) 0 = nth_error arr 0 /\
  (forall i, (S i < length arr)%nat ->
     get (Web.ema arr n) (S i)
     = (get arr (S i) * (Fin 2 / (of_nat n + Fin 1))
        + get (Web.ema arr n) i * (Fin 1 - Fin 2 / (of_nat n + Fin 1)))%num) /\
  (forall more, firstn (length arr) (Web.ema (arr ++ more) n) = Web.ema arr n).
Proof.
  split; [apply ema_length|]. split; [apply ema_head|].
  split; [apply ema_step|]. intros more. apply ema_prefix.
Qed.

(* ================================================================== *)
(** ** Replaying a longer buffer *)

Lemma slice_to_app {A : Type} (n : nat) (l more : list A) :
  (n <= length l)%nat -> slice_to n (l ++ more) = slice_to n l.
Proof.
  intros H. unfold slice_to. rewrite firstn_app.
  replace (n - length l)%nat with 0%nat by lia. cbn [firstn]. apply app_nil_r.
Qed.

Lemma get_app (l more : list num) (i : nat) :
  (i < length l)%nat -> get (l ++ more) i = get l i.
Proof. intros H. unfold get. now apply app_nth1. Qed.

(** An iteration inside the shorter buffer does not see the later ticks. *)
Lemma sim_step_prefix (prices volumes ps' vs' : list num) (st : sim_state)
      (i : nat) :
  length volumes = length prices -> (i < length prices)%nat ->
  Web.sim_step (prices ++ ps') (volumes ++ vs') st i
  = Web.sim_step prices volumes st i.
Proof.
  intros Hlen Hi. unfold Web.sim_step, Web.reasons_at.
  rewrite (get_app prices ps' i Hi).
  rewrite (slice_to_app (i + 1) prices ps') by lia.
  rewrite (slice_to_app (i + 1) volumes vs') by lia.
  reflexivity.
Qed.

Lemma sim_run_prefix (prices volumes ps' vs' : list num) (n : nat) :
  length volumes = length prices -> (n <= length prices)%nat ->
  Web.sim_run (prices ++ ps') (volumes ++ vs') n = Web.sim_run prices volumes n.
Proof.
  intros Hlen. induction n as [|n IH]; intros Hn; [reflexivity|].
  rewrite !sim_run_succ, IH by lia. apply sim_step_prefix; [exact Hlen|lia].
Qed.

(** Further iterations only append events, each at its own index. *)
Lemma sim_run_extends (prices volumes : list num) (n m : nat) :
  exists later,
    newLogs (Web.sim_run prices volumes (n + m))
    = newLogs (Web.sim_run prices volumes n) ++ later /\
    Forall (fun e => (n <= time e)%nat) later.
Proof.
  induction m as [|m (later & E & Hl)].
  - exists []. rewrite Nat.add_0_r, app_nil_r. split; [reflexivity|constructor].
  - rewrite Nat.add_succ_r, sim_run_succ.
    destruct (sim_step_detail prices volumes
                (Web.sim_run prices volumes (n + m)) (n + m))
      as [[E' _] | [(_ & _ & E') | (_ & E')]]; rewrite E'.
    + exists later. split; assumption.
    + eexists (later ++ [_]). cbn [newLogs]. rewrite E, <- app_assoc.
      split; [reflexivity|]. apply Forall_app. split; [exact Hl|].
      constructor; [cbn; lia|constructor].
    + eexists (later ++ [_]). cbn [newLogs]. rewrite E, <- app_assoc.
      split; [reflexivity|]. apply Forall_app. split; [exact Hl|].
      constructor; [cbn; lia|constructor].
Qed.

(** X11: a pass over a buffer that has grown at its end (nothing evicted)
    reproduces the log of the pass over the shorter buffer and only appends
    events at the new indices: ticks that arrive later never rewrite the
    events already derived. *)
Theorem replay_extends_log_X11 (prices volumes ps' vs' : list num) :
  length volumes = length prices ->
  exists later,
    Web.simulate (prices ++ ps') (volumes ++ vs')
    = Web.simulate prices volumes ++ later /\
    Forall (fun e => (length prices <= time e)%nat) later.
Proof.
  intros Hlen. unfold Web.simulate. rewrite length_app.
  destruct (sim_run_extends (prices ++ ps') (volumes ++ vs')
              (length prices) (length ps')) as (later & E & Hl).
  exists later. split; [|exact Hl].
  rewrite E. now rewrite (sim_run_prefix prices volumes ps' vs' (length prices) Hlen).
Qed.

Lemma replay_extends_log_X11_witness :
  length oversold_volumes = length oversold_prices /\
  exists later,
    Web.simulate (oversold_prices ++ [Fin 2]) (oversold_volumes ++ [Fin 1])
    = Web.simulate oversold_prices oversold_volumes ++ later /\
    Forall (fun e => (length oversold_prices <= time e)%nat) later.
Proof.
  assert (Hlen : length oversold_volumes = length oversold_prices)
    by reflexivity.
  split; [exact Hlen|].
  exact (replay_extends_log_X11 oversold_prices oversold_volumes
           [Fin 2] [Fin 1] Hlen).
Defined.

(* ================================================================== *)
(** ** Contents of the sample buffers *)

Section IngestInvariant.
Variable handler : Parsed.buffers -> Parsed.value -> Parsed.buffers.
Variable records : Parsed.value -> bool.
Variable price_ok : Parsed.value -> Prop.

(** A handler either leaves the buffers as they are or pushes one price and
    one truthy volume through the bounded append. *)
Hypothesis handler_cases :
  forall st data,
    (records data = false /\ handler st data = st) \/
    (records data = true /\
     exists x y, price_ok x /\ is_truthy y /\ handler st data = Parsed.push st x y).

Lemma ingest_invariant (msgs : list Parsed.value) :
  length (Parsed.prices (fold_left handler msgs no_samples))
  = Nat.min 100 (length (filter records msgs)) /\
  length (Parsed.volumes (fold_left handler msgs no_samples))
  = Nat.min 100 (length (filter records msgs)) /\
  Forall price_ok (Parsed.prices (fold_left handler msgs no_samples)) /\
  Forall is_truthy (Parsed.volumes (fold_left handler msgs no_samples)).
Proof.
  induction msgs as [|m msgs (Hp & Hv & Hfp & Hfv)] using rev_ind.
  - cbn. repeat split; constructor.
  - rewrite fold_left_app, filter_app, length_app. cbn [fold_left filter].
    destruct (handler_cases (fold_left handler msgs no_samples) m)
      as [[Ha E] | (Ha & x & y & Hx & Hy & E)]; rewrite Ha, E.
    + cbn [length]. rewrite Nat.add_0_r. auto.
    + unfold Parsed.push. cbn [Parsed.prices Parsed.volumes].
      rewrite !length_app, !slice_last_length by lia.
      rewrite Hp, Hv. cbn [length].
      split; [lia|]. split; [lia|].
      split; apply Forall_app; split.
      * now apply Forall_slice_last.
      * constructor; [exact Hx|constructor].
      * now apply Forall_slice_last.
      * constructor; [exact Hy|constructor].
Qed.
End IngestInvariant.

Lemma parsed_or_one_truthy (volume : Parsed.value) :
  is_truthy (Parsed.or_one volume).
Proof.
  unfold is_truthy, Parsed.or_one.
  destruct (Parsed.to_boolean volume) eqn:E; [exact E|reflexivity].
Qed.

Lemma web_onmessage_cases (st : Parsed.buffers) (data : Parsed.value) :
  (recorded_web data = false /\ Parsed.Web.onmessage st data = st) \/
  (recorded_web data = true /\
   exists x y,
     True /\ is_truthy y /\ Parsed.Web.onmessage st data = Parsed.push st x y).
Proof.
  unfold recorded_web, Parsed.Web.onmessage.
  destruct (Parsed.Web.destructured data) as [[price volume]|]; [right|now left].
  split; [reflexivity|].
  exists price, (Parsed.or_one volume).
  split; [exact I|]. split; [apply parsed_or_one_truthy|reflexivity].
Qed.

Lemma part000_onmessage_cases (st : Parsed.buffers) (data : Parsed.value) :
  (recorded_part000 data = false /\ Parsed.Part000.onmessage st data = st) \/
  (recorded_part000 data = true /\
   exists x y,
     is_truthy x /\ is_truthy y /\
     Parsed.Part000.onmessage st data = Parsed.push st x y).
Proof.
  unfold recorded_part000, Parsed.Part000.onmessage.
  destruct (Parsed.Part000.first_entry data) as [x|]; [|now left].
  destruct (Parsed.to_boolean (Parsed.optional_member x "p")) eqn:E; [right|now left].
  split; [reflexivity|].
  exists (Parsed.optional_member x "p"), (Parsed.or_one (Parsed.optional_member x "v")).
  split; [exact E|]. split; [apply parsed_or_one_truthy|reflexivity].
Qed.

(** On well-formed messages the handlers on parsed values are the handlers
    of modules [Web] and [Part000]. *)
Lemma slice_last_map {A B : Type} (f : A -> B) (n : nat) (l : list A) :
  slice_last n (map f l) = map f (slice_last n l).
Proof.
  unfold slice_last. rewrite length_map.
  destruct (n =? 0)%nat; [reflexivity|]. now rewrite skipn_map.
Qed.

Lemma push_at_run_time (st : buffers) (x y : num) :
  Parsed.push (at_run_time st) (Parsed.VNumber x) (Parsed.VNumber y)
  = at_run_time (Web.onTrade st x y).
Proof.
  unfold Parsed.push, at_run_time, Web.onTrade.
  cbn [Parsed.prices Parsed.volumes prices volumes].
  now rewrite !slice_last_map, !map_app.
Qed.

Lemma encoded_volume (t : trade) :
  Parsed.or_one (Parsed.optional_member (encode_trade t) "v")
  = Parsed.VNumber (or_one (v t)).
Proof.
  unfold encode_trade, or_one, Parsed.or_one.
  destruct (v t) as [q|]; cbn; [|reflexivity].
  destruct (negb (Qeq_bool q 0)); reflexivity.
Qed.

Lemma web_onmessage_encoded (st : buffers) (msg : message) :
  Parsed.Web.onmessage (at_run_time st) (encode msg)
  = at_run_time (Web.onmessage st msg).
Proof.
  destruct msg as [[|t rest]|]; [reflexivity| |reflexivity].
  unfold Parsed.Web.onmessage, Web.onmessage, Parsed.Web.onTrade.
  change (Parsed.Web.destructured (encode (Trade (t :: rest))))
    with (Some (Parsed.VNumber (Fin (p t)),
                Parsed.optional_member (encode_trade t) "v")).
  cbv beta iota. rewrite encoded_volume. apply push_at_run_time.
Qed.

Lemma part000_onmessage_encoded (st : buffers) (msg : message) :
  Parsed.Part000.onmessage (at_run_time st) (encode msg)
  = at_run_time (Part000.onmessage st msg).
Proof.
  destruct msg as [[|t rest]|]; [reflexivity| |reflexivity].
  unfold Parsed.Part000.onmessage, Part000.onmessage.
  change (Parsed.Part000.first_entry (encode (Trade (t :: rest))))
    with (Some (encode_trade t)).
  cbv beta iota zeta. rewrite encoded_volume.
  change (Parsed.optional_member (encode_trade t) "p")
    with (Parsed.VNumber (Fin (p t))).
  cbn [nth_error option_map Parsed.to_boolean].
  destruct (truthy (Fin (p t))); [|reflexivity].
  apply push_at_run_time.
Qed.


(* ================================================================== *)
(** ** Teardown and reset of the reconnection state *)

Lemma ws_step_unmounted (c : Web.conn) (e : Web.ws_event) :
  Web.mounted c = false -> Web.timeoutRef c = None ->
  Web.mounted (Web.ws_step c e) = false /\
  Web.timeoutRef (Web.ws_step c e) = None /\
  Web.scheduled (Web.ws_step c e) = Web.scheduled c.
Proof.
  destruct c as [m s r t sch]. cbn [Web.mounted Web.timeoutRef].
  intros -> ->. destruct e; repeat split.
Qed.

Lemma ws_run_unmounted (es : list Web.ws_event) :
  forall c,
    Web.mounted c = false -> Web.timeoutRef c = None ->
    Web.mounted (Web.ws_run c es) = false /\
    Web.timeoutRef (Web.ws_run c es) = None /\
    Web.scheduled (Web.ws_run c es) = Web.scheduled c.
Proof.
  induction es as [|e es IH]; intros c Hm Ht; [cbn; auto|].
  destruct (ws_step_unmounted c e Hm Ht) as (Hm' & Ht' & Hs').
  destruct (IH (Web.ws_step c e) Hm' Ht') as (Hm2 & Ht2 & Hs2).
  change (Web.ws_run c (e :: es)) with (Web.ws_run (Web.ws_step c e) es).
  rewrite Hs2, Hs'. auto.
Qed.

(** X13: after the cleanup of the effect, no event of the old socket or
    timer can schedule a reconnect any more: whatever events follow, the
    hook stays unmounted, no timer is pending and no delay is added to the
    ones already scheduled. *)
Theorem teardown_stops_reconnect_X13 (c : Web.conn) (es : list Web.ws_event) :
  Web.mounted (Web.ws_run (Web.ws_step c Web.EvCleanup) es) = false /\
  Web.timeoutRef (Web.ws_run (Web.ws_step c Web.EvCleanup) es) = None /\
  Web.scheduled (Web.ws_run (Web.ws_step c Web.EvCleanup) es) = Web.scheduled c.
Proof.
  exact (ws_run_unmounted es (Web.ws_step c Web.EvCleanup) eq_refl eq_refl).
Qed.

(* ================================================================== *)
(** ** Cumulative profit series *)

Lemma sumQ_app (l1 l2 : list Q) : (sumQ (l1 ++ l2) == sumQ l1 + sumQ l2)%Q.
Proof.
  induction l1 as [|x l1 IH]; cbn [app sumQ]; [ring|]. rewrite IH. ring.
Qed.

(** [x || 0] keeps the value of a finite number. *)
Lemma or_zero_fin (c : Q) :
  exists c', or_zero (Some (Fin c)) = Fin c' /\ (c' == c)%Q.
Proof.
  cbn. destruct (Qeq_bool c 0) eqn:E; cbn [negb].
  - exists 0%Q. split; [reflexivity|]. apply Qeq_bool_iff in E. now rewrite E.
  - exists c. split; reflexivity.
Qed.

(** The running sums over a list of SELL events with finite profits. *)
Lemma running_sums (qs : list Q) :
  forall sells,
    map profit sells = map (fun q => Some (Fin q)) qs ->
    let series :=
      reducei
        (fun acc cur i =>
           acc ++ [(or_zero (if (i =? 0)%nat then None else nth_error acc (i - 1))
                    + or_zero (profit cur))%num])
        sells [] in
    length series = length qs /\
    forall k, (k < length qs)%nat ->
      exists c, nth_error series k = Some (Fin c) /\
                (c == sumQ (firstn (S k) qs))%Q.
Proof.
  induction qs as [|q qs IH] using rev_ind; intros sells Hmap.
  - destruct sells; [|discriminate]. cbn. split; [reflexivity|]. intros k Hk. lia.
  - rewrite map_app in Hmap. apply map_eq_app in Hmap
      as (sells' & last & -> & Hm1 & Hm2).
    destruct last as [|s [|? ?]]; try discriminate. cbn in Hm2.
    injection Hm2 as Hs.
    destruct (IH sells' Hm1) as [Hlen Hk]. cbv zeta in *.
    unfold reducei in *. rewrite reducei_from_snoc. cbn [Nat.add].
    set (series := reducei_from _ 0 sells' []) in *.
    assert (Hl : length sells' = length qs).
    { apply (f_equal (@length _)) in Hm1. now rewrite !length_map in Hm1. }
    rewrite Hs, Hl.
    destruct (or_zero_fin q) as (q' & -> & Hq').
    assert (Hprev : exists c,
               or_zero (if (length qs =? 0)%nat then None
                        else nth_error series (length qs - 1)) = Fin c /\
               (c == sumQ qs)%Q).
    { destruct (Nat.eqb_spec (length qs) 0) as [E | NE].
      - exists 0%Q. split; [reflexivity|].
        destruct qs; [reflexivity|discriminate].
      - destruct (Hk (length qs - 1)%nat) as (c & -> & Hc); [lia|].
        replace (S (length qs - 1)) with (length qs) in Hc by lia.
        rewrite firstn_all in Hc.
        destruct (or_zero_fin c) as (c' & -> & Hc').
        exists c'. split; [reflexivity|]. now rewrite Hc'. }
    destruct Hprev as (c & -> & Hc). cbn [nadd].
    split; [rewrite !length_app, Hlen; reflexivity|].
    intros k Hlt. rewrite length_app in Hlt. cbn [length] in Hlt.
    destruct (Nat.lt_ge_cases k (length qs)) as [Hin | Hout].
    + rewrite nth_error_app1 by lia.
      destruct (Hk k Hin) as (c0 & E0 & Hc0). exists c0. split; [exact E0|].
      rewrite firstn_app. replace (S k - length qs)%nat with 0%nat by lia.
      cbn [firstn]. now rewrite app_nil_r.
    + assert (k = length qs) as -> by lia.
      rewrite nth_error_app2 by lia. rewrite Hlen, Nat.sub_diag. cbn [nth_error].
      eexists. split; [reflexivity|].
      rewrite firstn_all2 by (rewrite length_app; cbn; lia).
      rewrite sumQ_app, Hc, Hq'. cbn [sumQ]. ring.
Qed.

(** X15: when the SELL events of a log carry the finite profits
    q_0, q_1, ..., the [cumulative] series has one point per SELL and its
    k-th point is q_0 + ... + q_k; BUY events do not contribute.  Both files
    compute the same series. *)
Theorem cumulative_running_sum_X15 (logs : list log) (qs : list Q) :
  map profit (filter is_sell logs) = map (fun q => Some (Fin q)) qs ->
  length (Web.cumulative logs) = length qs /\
  (forall k, (k < length qs)%nat ->
     exists c, nth_error (Web.cumulative logs) k = Some (Fin c) /\
               (c == sumQ (firstn (S k) qs))%Q) /\
  Part000.cumulative logs = Web.cumulative logs.
Proof.
  intros H. destruct (running_sums qs (filter is_sell logs) H) as [Hlen Hk].
  split; [exact Hlen|]. split; [exact Hk|reflexivity].
Qed.

Lemma cumulative_running_sum_X15_witness :
  map profit (filter is_sell sample_log)
  = map (fun q => Some (Fin q)) [1.2; -1.4]%Q /\
  length (Web.cumulative sample_log) = length [1.2; -1.4]%Q.
Proof.
  assert (H : map profit (filter is_sell sample_log)
              = map (fun q => Some (Fin q)) [1.2; -1.4]%Q) by reflexivity.
  split; [exact H|].
  exact (proj1 (cumulative_running_sum_X15 sample_log [1.2; -1.4]%Q H)).
Defined.

(* ================================================================== *)
(** ** The periodic driver *)

(** A pass over at most 26 ticks logs nothing. *)
Lemma short_buffer_empty_log (prices volumes : list num) :
  (length prices <= 26)%nat -> Web.simulate prices volumes = [].
Proof.
  intros Hlen. unfold Web.simulate.
  destruct (sim_run_log_inv prices volumes (length prices)) as [Hlate _ _ _ _].
  destruct (sim_run_inv prices volumes (length prices)) as [_ _ Hb _ _].
  destruct (newLogs _) as [|e l]; [reflexivity|].
  specialize (Hlate e (or_introl eq_refl)).
  specialize (Hb e (or_introl eq_refl)). lia.
Qed.

(** X16: the effect that drives the periodic pass arms its interval exactly
    when an API key is set, at least 20 prices are buffered and the
    configured period is at least 1 s; the delay is then the period in
    milliseconds (never below 1000).  A NaN period passes the guard
    [intervalSec < 1] and arms the interval with a NaN delay.  A pass over
    26 ticks or fewer logs nothing, so the first passes after arming at 20
    ticks always return an empty log. *)
Theorem auto_interval_X16 (apiKey : string) (prices volumes : list num) (s : Q) :
  (Web.auto_interval apiKey prices (Fin s) <> None <->
   (apiKey <> ""%string /\ (20 <= length prices)%nat /\ (1 <= s)%Q)) /\
  (forall d, Web.auto_interval apiKey prices (Fin s) = Some d ->
             num_eq d (Fin (s * 1000)) /\ (1000 <= s * 1000)%Q) /\
  (apiKey <> ""%string -> (20 <= length prices)%nat ->
   Web.auto_interval apiKey prices NaN = Some NaN) /\
  ((length prices <= 26)%nat -> Web.simulate prices volumes = []).
Proof.
  split; [|split; [|split; [|apply short_buffer_empty_log]]].
  - unfold Web.auto_interval. split.
    + intros H.
      destruct (String.eqb_spec apiKey ""); [now contradiction H|].
      destruct (Nat.ltb_spec (length prices) 20); [now contradiction H|].
      destruct (Fin s <? Fin 1)%num eqn:Es; [now contradiction H|].
      apply nlt_fin_false in Es. auto.
    + intros (Hk & Hl & Hs). apply String.eqb_neq in Hk. rewrite Hk.
      destruct (Nat.ltb_spec (length prices) 20); [lia|].
      apply nlt_fin_false in Hs. rewrite Hs. discriminate.
  - intros d. unfold Web.auto_interval.
    destruct (_ || _ || _) eqn:G; [discriminate|]. intros [= <-].
    apply orb_false_iff in G as [_ Es]. apply nlt_fin_false in Es.
    change (nmax (Fin 1000) (Fin s * Fin 1000)%num)
      with (if (Fin 1000 <? Fin (s * 1000))%num then Fin (s * 1000) else Fin 1000).
    destruct (Qle_bool (s * 1000) 1000) eqn:E; cbn [negb num_eq].
    + apply Qle_bool_iff in E. split; lra.
    + split; [reflexivity|lra].
  - intros Hk Hl. unfold Web.auto_interval.
    apply String.eqb_neq in Hk. rewrite Hk.
    destruct (Nat.ltb_spec (length prices) 20); [lia|]. reflexivity.
Qed.

(* ================================================================== *)
(** ** A price equal to the entry price *)

(** At the entry price the net profit is the round-trip commission, and
    not a number when the entry price is 0 or not finite; in both cases it
    passes neither threshold. *)
Lemma net_profit_at_entry (e x : num) :
  num_eq x e ->
  (Web.calculate_net_profit e x >=? TAKE_PROFIT_PCT)%num = false /\
  (Web.calculate_net_profit e x <=? STOP_LOSS_PCT)%num = false /\
  (finite e -> truthy e = true ->
   within (-0.47) (-0.45) (Web.calculate_net_profit e x)).
Proof.
  destruct e as [a| | |], x as [b| | |]; cbn [num_eq]; try tauto; intros Hab;
    try (split; [reflexivity|split; [reflexivity|cbn; tauto]]).
  destruct (Qeq_dec a 0) as [Hz|Hnz].
  - assert (E : Web.calculate_net_profit (Fin a) (Fin b) = NaN).
    { unfold Web.calculate_net_profit, nsub. cbn [nneg nadd ndiv].
      apply Qeq_bool_iff in Hz. rewrite Hz.
      assert (Hc : (b + - a ?= 0)%Q = Eq) by (apply Qeq_alt; apply Qeq_bool_iff in Hz; lra).
      rewrite Hc. reflexivity. }
    rewrite E. split; [reflexivity|]. split; [reflexivity|].
    intros _ Ht. apply truthy_fin in Ht. tauto.
  - rewrite (calculate_net_profit_fin a b Hnz).
    assert (Hn : (net_profit_pct a b == -0.46)%Q).
    { unfold net_profit_pct.
      assert (Hg : ((b - a) / a - 0.0023 * 2 == -0.0046)%Q) by (field_simplify_eq; [lra|exact Hnz]).
      destruct (Qle_bool ((b - a) / a - 0.0023 * 2) 0) eqn:E; cbn [negb].
      - rewrite Hg. reflexivity.
      - apply Qle_bool_false in E. lra. }
    unfold TAKE_PROFIT_PCT, STOP_LOSS_PCT.
    split; [|split].
    + destruct (Fin (net_profit_pct a b) >=? Fin 0.7)%num eqn:E; [|reflexivity].
      apply nge_fin in E. lra.
    + destruct (Fin (net_profit_pct a b) <=? Fin (-0.5))%num eqn:E; [|reflexivity].
      apply nle_fin in E. lra.
    + intros _ _. cbn. lra.
Qed.



(* ================================================================== *)
(** ** When a BUY fires *)

(** X19: at every index, a BUY event is emitted exactly when the position is
    flat and each of the four indicators is present, truthy (neither 0 nor
    NaN) and satisfies its condition; then all four conditions of the
    specification hold.  While a position is held no BUY is emitted. *)
Theorem buy_fires_X19 (prices volumes : list num) (i : nat) :
  emits_buy prices volumes i
  = negb (holding (Web.sim_run prices volumes i))
    && truthy_buy_condition prices volumes i /\
  (emits_buy prices volumes i = true ->
   spec_buy_condition prices volumes i = true).
Proof.
  assert (H : emits_buy prices volumes i
              = negb (holding (Web.sim_run prices volumes i))
                && truthy_buy_condition prices volumes i).
  { destruct (holding (Web.sim_run prices volumes i)) eqn:Hh; cbn [negb andb].
    - apply emits_buy_holding, Hh.
    - rewrite (emits_buy_flat prices volumes i Hh). apply reasons_length. }
  split; [exact H|]. rewrite H. intros Hb.
  apply andb_true_iff in Hb as [_ Hb].
  apply truthy_condition_implies_spec, Hb.
Qed.
